(** * magnet: parsing of magnet links (vedranvuk/magnet, magnet.go)

    A shallow embedding of [magnet.go] and of the parts of the Go standard
    library it calls, followed by the properties of the parser.

    Go values are rendered as follows.
    - A Go [string] is a byte sequence: [string] (a list of 8-bit [ascii]).
    - A Go [[]byte] is a [list byte].
    - A function returning [(T, error)] returns a [result T]; a run-time
      panic (index or slice out of range, write to a nil map) is the third
      outcome [Panic].
    - [map[string]T] is a [gmap string T]; [for d := range m] visits the keys
      in an order the language leaves unspecified, so the loop takes the
      order as an argument of type [RangeOrder].
    - [m *Magnet] is mutated in place by [parseKeyVal]; here the record is
      passed in and the updated record returned. *)

From Stdlib Require Import ZArith NArith String Ascii List Lia.
From Stdlib.Strings Require Import Byte.
From stdpp Require Import base option gmap strings list.

Local Open Scope string_scope.

Abbreviation byte := Byte.byte.

(** ** Errors and outcomes *)

(** [strconv.ErrSyntax] and [strconv.ErrRange]. *)
Inductive NumErr : Type := ErrSyntax | ErrRange.

(** The error values that can leave the package. [ErrInvalidMagnet] is the
    package's own; the others are the errors of the standard library that
    [newURN] and [parseKeyVal] return unchanged. The byte offset carried by
    [base32.CorruptInputError] is not recorded. [url_Error v] stands for
    the [*url.Error] that [url.Parse] returns for the text [v]. *)
Inductive error : Type :=
  | ErrInvalidMagnet
  | base32_CorruptInputError
  | hex_ErrLength
  | hex_InvalidByteError (b : ascii)
  | strconv_NumError (fn num : string) (e : NumErr)
  | url_EscapeError (s : string)
  | url_Error (v : string).

(** Run-time panics of the Go runtime. *)
Inductive runtime_error : Type :=
  | index_out_of_range (i len : nat)
  | slice_bounds_out_of_range (lo len : nat)
  | assignment_to_entry_in_nil_map.

Inductive result (A : Type) : Type :=
  | Ok (a : A)
  | Err (e : error)
  | Panic (p : runtime_error).
Arguments Ok {A} a.
Arguments Err {A} e.
Arguments Panic {A} p.

(** Sequencing: the first error or panic ends the call. *)
#[export] Instance result_bind : MBind result := fun A B k r =>
  match r with
  | Ok a => k a
  | Err e => Err e
  | Panic p => Panic p
  end.

(** ** Go strings: length and slicing *)

Abbreviation len := String.length.

(** [s[:n]] for [n <= len(s)]. *)
Fixpoint str_take (n : nat) (s : string) : string :=
  match n, s with
  | S n', String c s' => String c (str_take n' s')
  | _, _ => ""
  end.

(** [s[n:]] for [n <= len(s)]. *)
Fixpoint str_drop (n : nat) (s : string) : string :=
  match n, s with
  | S n', String _ s' => str_drop n' s'
  | _, _ => s
  end.

(** [s[lo:]], which panics when [lo > len(s)]. *)
Definition slice_from (s : string) (lo : nat) : result string :=
  if (lo <=? len s)%nat then Ok (str_drop lo s)
  else Panic (slice_bounds_out_of_range lo (len s)).

Definition is_ascii (c : ascii) : bool := (nat_of_ascii c <? 128)%nat.

Fixpoint isASCII (s : string) : bool :=
  match s with
  | "" => true
  | String c s' => is_ascii c && isASCII s'
  end.

(** ['A' <= c && c <= 'Z' ? c + ('a' - 'A') : c] *)
Definition lower (c : ascii) : ascii :=
  let n := nat_of_ascii c in
  if ((65 <=? n) && (n <=? 90))%nat then ascii_of_nat (n + 32) else c.

(** ** Package [strings] *)

Module strings.

(** [strings.HasPrefix(s, prefix)]. *)
Fixpoint HasPrefix (s prefix : string) : bool :=
  match prefix, s with
  | "", _ => true
  | String _ _, "" => false
  | String a p', String b s' => Ascii.eqb a b && HasPrefix s' p'
  end.

(** [strings.Index(s, substr)]: the offset of the first instance of
    [substr] in [s]; [None] renders Go's [-1]. *)
Fixpoint Index (s substr : string) : option nat :=
  if HasPrefix s substr then Some 0
  else match s with
       | "" => None
       | String _ s' => S <$> Index s' substr
       end.

(** The loop of [strings.Count] for a non-empty [substr]: find the next
    instance, step over it, count. Each round shortens [s], so [len(s)]
    rounds are enough. *)
Fixpoint Count_loop (fuel : nat) (s substr : string) : nat :=
  match fuel with
  | 0 => 0
  | S fuel' =>
      match Index s substr with
      | None => 0
      | Some i => S (Count_loop fuel' (str_drop (i + len substr) s) substr)
      end
  end.

(** [strings.Count(s, substr)], the number of non-overlapping instances
    of a non-empty [substr]. ([Count(s, "")] counts UTF-8 sequences; the
    parser never asks for it.) *)
Definition Count (s substr : string) : nat := Count_loop (len s) s substr.

(** The loop of [genSplit]: at most [n] cuts, then the rest. *)
Fixpoint genSplit_loop (n : nat) (s sep : string) (sepSave : nat)
  : list string :=
  match n with
  | 0 => [s]
  | S n' =>
      match Index s sep with
      | None => [s]
      | Some m =>
          str_take (m + sepSave) s
            :: genSplit_loop n' (str_drop (m + len sep) s) sep sepSave
      end
  end.

(** [strings.genSplit(s, sep, sepSave, n)] for a non-empty [sep]. With an
    empty [sep] Go splits [s] into its UTF-8 sequences ([explode]); every
    call in magnet.go passes a non-empty literal, and that branch is
    left out. *)
Definition genSplit (s sep : string) (sepSave : nat) (n : Z) : list string :=
  if (n =? 0)%Z then []
  else
    let n := if (n <? 0)%Z then (Z.of_nat (Count s sep) + 1)%Z else n in
    let n := if (Z.of_nat (len s) + 1 <? n)%Z
             then (Z.of_nat (len s) + 1)%Z else n in
    genSplit_loop (Z.to_nat (n - 1)) s sep sepSave.

(** [strings.Split(s, sep)]. *)
Definition Split (s sep : string) : list string := genSplit s sep 0 (-1).

(** [strings.SplitAfterN(s, sep, n)]. *)
Definition SplitAfterN (s sep : string) (n : Z) : list string :=
  genSplit s sep (len sep) n.

(** [strings.ToLower] on a string of ASCII bytes: the upper-case letters
    are mapped to lower case, every other byte stays. *)
Fixpoint ToLowerASCII (s : string) : string :=
  match s with
  | "" => ""
  | String c s' => String (lower c) (ToLowerASCII s')
  end.

(** [strings.ToLower(s)]. Outside ASCII the result depends on the case
    tables of package [unicode], which are not part of this development;
    [ToLower] is therefore a function of which only the ASCII behaviour
    is fixed. Go maps [s] one UTF-8 sequence at a time, and an ASCII byte
    is a sequence of its own: a leading ASCII byte is lowered and the
    rest of the string is mapped independently of it. *)
Class Unicode : Type := {
  ToLower : string -> string;
  ToLower_empty : ToLower "" = "";
  ToLower_ascii c s :
    is_ascii c = true -> ToLower (String c s) = String (lower c) (ToLower s)
}.

End strings.

(** The byte with the low eight bits of [n]: Go's [byte] arithmetic wraps. *)
Definition byte_of_N (n : N) : byte := byte_of_ascii (ascii_of_N n).

(** ** Package [strconv] *)

Module strconv.

(** The value of a decimal digit. Any other byte is a syntax error in
    base 10 (a letter has a value of ten or more, an underscore is only
    read in base 0). *)
Definition digit (c : ascii) : option Z :=
  let n := nat_of_ascii c in
  if ((48 <=? n) && (n <=? 57))%nat then Some (Z.of_nat n - 48)%Z else None.

Definition maxUint64 : Z := 2 ^ 64 - 1.

(** The digit loop of [ParseUint(s, 10, 64)], left to right. The range
    check comes before the next byte is looked at, as in Go: [cutoff]
    is the least [n] with [n * 10 > maxUint64]. *)
Fixpoint ParseUint_loop (s : string) (n : Z) : Z + NumErr :=
  match s with
  | "" => inl n
  | String c s' =>
      match digit c with
      | None => inr ErrSyntax
      | Some d =>
          if (maxUint64 / 10 + 1 <=? n)%Z then inr ErrRange
          else
            let n1 := (n * 10 + d)%Z in
            if (maxUint64 <? n1)%Z then inr ErrRange
            else ParseUint_loop s' n1
      end
  end.

(** [strconv.ParseUint(s, 10, 64)]. *)
Definition ParseUint (s : string) : Z + NumErr :=
  match s with
  | "" => inr ErrSyntax
  | _ => ParseUint_loop s 0
  end.

(** [strconv.ParseInt(s, 10, bitSize)], with [fn] the function name that
    the [*NumError] reports. On a range error of [ParseUint] Go goes on
    with [un = maxUint64], which fails the range test below. *)
Definition ParseInt_as (fn : string) (s : string) (bitSize : Z) : result Z :=
  match s with
  | "" => Err (strconv_NumError fn s ErrSyntax)
  | String c s' =>
      let neg := Ascii.eqb c "-" in
      let digits := if Ascii.eqb c "+" || neg then s' else s in
      match ParseUint digits with
      | inr ErrSyntax => Err (strconv_NumError fn s ErrSyntax)
      | r =>
          let un := match r with inl un => un | inr _ => maxUint64 end in
          let cutoff := (2 ^ (bitSize - 1))%Z in
          if negb neg && (cutoff <=? un)%Z
          then Err (strconv_NumError fn s ErrRange)
          else if neg && (cutoff <? un)%Z
          then Err (strconv_NumError fn s ErrRange)
          else Ok (if neg then (- un)%Z else un)
      end
  end.

(** [strconv.ParseInt(s, 10, 64)]. *)
Definition ParseInt (s : string) : result Z := ParseInt_as "ParseInt" s 64.

(** The width of Go's [int] on the 64-bit platforms. *)
Definition IntSize : Z := 64.

(** [strconv.Atoi(s)]: [ParseInt(s, 10, 0)] reported under the name
    [Atoi]; bit size 0 stands for [IntSize]. (Go has a shortcut for short
    inputs, with the same results.) *)
Definition Atoi (s : string) : result Z := ParseInt_as "Atoi" s IntSize.

End strconv.

(** ** Package [encoding/hex] *)

Module hex.

(** [reverseHexTable]: the value of a hexadecimal digit, of either case. *)
Definition fromHexChar (c : ascii) : option N :=
  let n := N_of_ascii c in
  if ((48 <=? n) && (n <=? 57))%N then Some (n - 48)%N
  else if ((97 <=? n) && (n <=? 102))%N then Some (n - 87)%N
  else if ((65 <=? n) && (n <=? 70))%N then Some (n - 55)%N
  else None.

(** [hex.DecodeString(s)]: pairs of digits, left to right; the first bad
    byte is reported, and an odd length only when its last byte is a
    digit. *)
Fixpoint DecodeString (s : string) : result (list byte) :=
  match s with
  | "" => Ok []
  | String p "" =>
      match fromHexChar p with
      | None => Err (hex_InvalidByteError p)
      | Some _ => Err hex_ErrLength
      end
  | String p (String q s') =>
      match fromHexChar p, fromHexChar q with
      | None, _ => Err (hex_InvalidByteError p)
      | Some _, None => Err (hex_InvalidByteError q)
      | Some a, Some b =>
          rest ← DecodeString s'; Ok (byte_of_N (a * 16 + b) :: rest)
      end
  end.

End hex.

(** ** Package [encoding/base32], [StdEncoding] *)

Module base32.

(** [decodeMap] of the standard alphabet [A-Z2-7]; [None] renders 0xFF. *)
Definition decodeMap (c : ascii) : option N :=
  let n := N_of_ascii c in
  if ((65 <=? n) && (n <=? 90))%N then Some (n - 65)%N
  else if ((50 <=? n) && (n <=? 55))%N then Some (n - 24)%N
  else None.

(** [stripNewlines]: carriage returns and line feeds are dropped. *)
Fixpoint stripNewlines (s : string) : string :=
  match s with
  | "" => ""
  | String c s' =>
      if Ascii.eqb c "013" || Ascii.eqb c "010" then stripNewlines s'
      else String c (stripNewlines s')
  end.

(** The padding test of [decode]: for [k < n], [src[k]] is the padding
    character wherever [src] is that long. *)
Fixpoint padded (n : nat) (src : string) : bool :=
  match n, src with
  | S n', String c src' => Ascii.eqb c "=" && padded n' src'
  | _, _ => true
  end.

(** One round of the inner loop of [decode], which fills [dbuf]: [k] is
    the number of slots still empty (8 - j), [dbuf] the values read so
    far. The outcome is the values read, the flag [end] and the input
    left; [None] is a [CorruptInputError]. *)
Fixpoint quantum (k : nat) (dbuf : list N) (src : string)
  : option (list N * bool * string) :=
  match k with
  | 0 => Some (dbuf, false, src)
  | S k' =>
      match src with
      | "" => None
      | String c src' =>
          let j := (8 - k)%nat in
          if Ascii.eqb c "=" && (2 <=? j)%nat && (len src' <? 8)%nat then
            if (len src' + j <? 8 - 1)%nat then None
            else if negb (padded (8 - 1 - j) src') then None
            else if ((j =? 1) || (j =? 3) || (j =? 6))%nat then None
            else Some (dbuf, true, src')
          else
            match decodeMap c with
            | None => None
            | Some v => quantum k' (dbuf ++ [v]) src'
            end
      end
  end.

(** The five destination bytes of a quantum, cut to the number that
    [dlen] source values determine. *)
Definition pack (dbuf : list N) : list byte :=
  let d i := nth i dbuf 0%N in
  let b0 := N.lor (N.shiftl (d 0%nat) 3) (N.shiftr (d 1%nat) 2) in
  let b1 := N.lor (N.lor (N.shiftl (d 1%nat) 6) (N.shiftl (d 2%nat) 1))
              (N.shiftr (d 3%nat) 4) in
  let b2 := N.lor (N.shiftl (d 3%nat) 4) (N.shiftr (d 4%nat) 1) in
  let b3 := N.lor (N.lor (N.shiftl (d 4%nat) 7) (N.shiftl (d 5%nat) 2))
              (N.shiftr (d 6%nat) 3) in
  let b4 := N.lor (N.shiftl (d 6%nat) 5) (d 7%nat) in
  let n := match length dbuf with
           | 8 => 5 | 7 => 4 | 5 => 3 | 4 => 2 | 2 => 1 | _ => 0
           end%nat in
  take n (byte_of_N <$> [b0; b1; b2; b3; b4]).

(** The outer loop of [decode]: quantum after quantum until the input is
    used up or the padding has been seen. Each round reads at least one
    byte, so [len(src)] rounds are enough. *)
Fixpoint decode (fuel : nat) (src : string) : option (list byte) :=
  match fuel, src with
  | _, "" => Some []
  | 0, _ => Some []
  | S fuel', _ =>
      match quantum 8 [] src with
      | None => None
      | Some (dbuf, false, src') => (pack dbuf ++.) <$> decode fuel' src'
      | Some (dbuf, true, _) => Some (pack dbuf)
      end
  end.

(** [base32.StdEncoding.DecodeString(s)]. *)
Definition DecodeString (s : string) : result (list byte) :=
  let src := stripNewlines s in
  match decode (len src) src with
  | Some data => Ok data
  | None => Err base32_CorruptInputError
  end.

End base32.

(** ** Package [net/url] *)

Module url.

Definition ishex (c : ascii) : bool := bool_decide (is_Some (hex.fromHexChar c)).

Definition unhex (c : ascii) : N := default 0%N (hex.fromHexChar c).

(** [url.QueryUnescape(s)]: [%XX] becomes the byte XX and [+] a space; a
    [%] not followed by two hexadecimal digits is an [EscapeError] that
    quotes the text from the [%] on, three bytes at most. *)
Fixpoint QueryUnescape (s : string) : result string :=
  match s with
  | "" => Ok ""
  | String c rest =>
      if Ascii.eqb c "%" then
        match rest with
        | String a (String b rest') =>
            if ishex a && ishex b then
              t ← QueryUnescape rest';
              Ok (String (ascii_of_N (unhex a * 16 + unhex b)) t)
            else Err (url_EscapeError (str_take 3 s))
        | _ => Err (url_EscapeError (str_take 3 s))
        end
      else
        t ← QueryUnescape rest;
        Ok (String (if Ascii.eqb c "+" then " "%char else c) t)
  end.

(** [url.Parse(rawURL)]. The parser of net/url is not part of this
    development: [URL] is the type of its results and [Parse] the
    function, [None] when it returns an error. *)
Class Parser : Type := {
  URL : Type;
  Parse : string -> option URL
}.

End url.

(** ** Indexing *)

(** [a[i]], which panics when [i >= len(a)]. *)
Definition at_index {A : Type} (a : list A) (i : nat) : result A :=
  match a !! i with
  | Some x => Ok x
  | None => Panic (index_out_of_range i (length a))
  end.

(** ** magnet.go: types and tables *)

(** Hash types ([HashType], an [int] with eight named values). *)
Inductive HashType : Type :=
  | HashTTH       (* Tiger Tree hash. *)
  | HashSHA1      (* Secure Hash Algorithm 1. *)
  | HashBitPrint  (* BitPrint. *)
  | HashED2K      (* eDonkey2000 hash. *)
  | HashAICH      (* Advanced Intelligent Corruption Handler. *)
  | HashKazaa     (* Kazaa hash. *)
  | HashBTIH      (* BitTorrent Info Hash. *)
  | HashMD5.      (* Message Digest 5. *)

(** The zero value of [HashType], which a map returns for a missing key. *)
#[export] Instance HashType_inhabited : Inhabited HashType := populate HashTTH.

Definition HashTypeMap : gmap string HashType :=
  list_to_map
    [ ("tree:tiger", HashTTH);
      ("sha1", HashSHA1);
      ("bitprint", HashBitPrint);
      ("ed2k", HashED2K);
      ("aich", HashAICH);
      ("kzhash", HashKazaa);
      ("btih", HashBTIH);
      ("md5", HashMD5) ].

(** An order in which [for d := range HashTypeMap] may visit the keys:
    each key once, in any order. *)
Record RangeOrder : Type := {
  range_keys :> list string;
  range_perm : range_keys ≡ₚ (map_to_list HashTypeMap).*1
}.

(** Key types. *)
Inductive KeyType : Type :=
  | KeyAcceptableSource  (* Acceptable sources. *)
  | KeyDisplayName       (* Display name. *)
  | KeyKeywordTopic      (* Search keywords. *)
  | KeyManifestTopic     (* Link to metafile containing list of MAGNETO manifests. *)
  | KeyTrackerAddress    (* Tracker address. *)
  | KeyExactLength       (* Exact length in bytes. *)
  | KeyExactSource       (* p2p link. *)
  | KeyExactTopic        (* URN containing file hash. *)
  | KeySuplement.        (* Suplemental keys (extensions). *)

(** Maps Magnet string keys to KeyType type. *)
Definition KeyTypeMap : gmap string KeyType :=
  list_to_map
    [ ("as", KeyAcceptableSource);
      ("dn", KeyDisplayName);
      ("kt", KeyKeywordTopic);
      ("mt", KeyManifestTopic);
      ("tr", KeyTrackerAddress);
      ("xl", KeyExactLength);
      ("xs", KeyExactSource);
      ("xt", KeyExactTopic);
      ("x.", KeySuplement) ].

(** Defines a Magnet hash. (Go's field [Type] is [HType] here.) *)
Record Hash : Type := {
  HType : HashType;  (* Hash type. *)
  Data : list byte   (* Hash data. *)
}.

(** Defines a Magnet URN. *)
Record URN : Type := {
  Hashes : list Hash  (* Hashes, some URNs have multiple. *)
}.

Record Suplement : Type := {
  Key : string;
  Val : string
}.

(** An element of [ManifestTopics], a [[]interface{}] that holds [*URN]
    and [string] values. *)
Inductive ManifestTopic : Type :=
  | TopicURN (u : URN)
  | TopicString (s : string).

(** Defines a magnet key. (Go's field [Type] is [KType] here; [Indx] is an
    [int].) *)
Record magnetKey : Type := {
  KType : KeyType;  (* One of supported key types. *)
  Indx : Z;         (* Optional index if it's a multiple key:value type pair. *)
  Supl : string     (* If it's a suplemental key, this is its' value. *)
}.

(** ** magnet.go: the parser *)

Section Parser.

Context `{!strings.Unicode} `{!url.Parser}.

(** The loop [for d := range HashTypeMap] of [newURN], over the keys in
    the order [ds]: the first key that prefixes the lowered [urn] sets
    [ht] and [hd] and ends the loop. Without a match [ht] keeps
    [HashType(-1)], here [None], and [hd] stays empty. *)
Fixpoint range_HashTypeMap (ds : list string) (urn : string)
  : result (option HashType * string) :=
  match ds with
  | [] => Ok (None, "")
  | d :: ds' =>
      if strings.HasPrefix (strings.ToLower urn) d then
        hd ← slice_from urn (len d + 1);
        Ok (Some (HashTypeMap !!! d), hd)
      else range_HashTypeMap ds' urn
  end.

(** The [switch ht] of [newURN]: decode [hd] by the rule of the hash
    type and append to [r.Hashes]. *)
Definition switch_ht (r : URN) (ht : option HashType) (hd : string)
  : result URN :=
  match ht with
  | Some ((HashTTH | HashSHA1 | HashAICH) as t) =>
      data ← base32.DecodeString hd;
      Ok {| Hashes := Hashes r ++ [{| HType := t; Data := data |}] |}
  | Some ((HashED2K | HashKazaa | HashBTIH) as t) =>
      data ← hex.DecodeString hd;
      Ok {| Hashes := Hashes r ++ [{| HType := t; Data := data |}] |}
  | Some HashBitPrint =>
      let b := strings.Split hd "." in
      if negb (length b =? 2)%nat then Err ErrInvalidMagnet
      else
        b0 ← at_index b 0;
        data ← base32.DecodeString b0;
        let r := {| Hashes := Hashes r ++ [{| HType := HashSHA1; Data := data |}] |} in
        b1 ← at_index b 1;
        data ← base32.DecodeString b1;
        Ok {| Hashes := Hashes r ++ [{| HType := HashTTH; Data := data |}] |}
  | _ => Ok r
  end.

(** Create a new *URN structure from an urn string or an error. *)
Definition newURN (o : RangeOrder) (v : string) : result URN :=
  let r := {| Hashes := [] |} in
  let a := strings.Split v "urn:" in
  if negb (length a =? 2)%nat then Err ErrInvalidMagnet
  else
    urn ← at_index a 1;
    '(ht, hd) ← range_HashTypeMap o urn;
    switch_ht r ht hd.

(** Creates a new *magnetKey structure from a magnet key string "k" or an
    error. *)
Definition newMagnetKey (k : string) : result magnetKey :=
  (* Fail on unsupported key. *)
  if (len k <? 2)%nat then Err ErrInvalidMagnet
  else
    match KeyTypeMap !! str_take 2 k with
    | None => Err ErrInvalidMagnet
    | Some ty =>
        (* KeySuplement special case. *)
        supl ← match ty with
               | KeySuplement =>
                   let b := strings.SplitAfterN k "." 1 in
                   if (length b <? 2)%nat then Err ErrInvalidMagnet
                   else at_index b 1
               | _ => Ok ""
               end;
        (* Get index. *)
        let c := strings.Split k "." in
        if (2 <? length c)%nat then Err ErrInvalidMagnet
        else if (length c =? 2)%nat then
          c1 ← at_index c 1;
          match strconv.Atoi c1 with
          | Ok v => Ok {| KType := ty; Indx := v; Supl := supl |}
          | Err _ => Err ErrInvalidMagnet
          | Panic p => Panic p
          end
        else Ok {| KType := ty; Indx := 0; Supl := supl |}
    end.

(** The parse result. [Suplements] is a map that [NewMagnet] never
    allocates: [None] is the nil map. *)
Record Magnet : Type := {
  AcceptableSources : list url.URL;  (* Fall-back sources, direct download from a web server. *)
  DisplayNames : list string;        (* Filename/display name. *)
  KeywordTopics : list string;       (* Search keywords. *)
  ManifestTopics : list ManifestTopic; (* Link to a list of links. URL or URN. *)
  TrackerAddresses : list string;    (* Tracker addresses. *)
  ExactLength : Z;                   (* Filesize. *)
  ExactSources : list string;
  ExactTopics : list URN;
  Suplements : option (gmap string (list Suplement))
}.

(** [Magnet{}]: every field at its zero value. *)
Definition Magnet_zero : Magnet :=
  {| AcceptableSources := []; DisplayNames := []; KeywordTopics := [];
     ManifestTopics := []; TrackerAddresses := []; ExactLength := 0;
     ExactSources := []; ExactTopics := []; Suplements := None |}.

Definition set_AcceptableSources (m : Magnet) x : Magnet :=
  {| AcceptableSources := x; DisplayNames := DisplayNames m;
     KeywordTopics := KeywordTopics m; ManifestTopics := ManifestTopics m;
     TrackerAddresses := TrackerAddresses m; ExactLength := ExactLength m;
     ExactSources := ExactSources m; ExactTopics := ExactTopics m;
     Suplements := Suplements m |}.

Definition set_DisplayNames (m : Magnet) x : Magnet :=
  {| AcceptableSources := AcceptableSources m; DisplayNames := x;
     KeywordTopics := KeywordTopics m; ManifestTopics := ManifestTopics m;
     TrackerAddresses := TrackerAddresses m; ExactLength := ExactLength m;
     ExactSources := ExactSources m; ExactTopics := ExactTopics m;
     Suplements := Suplements m |}.

Definition set_KeywordTopics (m : Magnet) x : Magnet :=
  {| AcceptableSources := AcceptableSources m; DisplayNames := DisplayNames m;
     KeywordTopics := x; ManifestTopics := ManifestTopics m;
     TrackerAddresses := TrackerAddresses m; ExactLength := ExactLength m;
     ExactSources := ExactSources m; ExactTopics := ExactTopics m;
     Suplements := Suplements m |}.

Definition set_ManifestTopics (m : Magnet) x : Magnet :=
  {| AcceptableSources := AcceptableSources m; DisplayNames := DisplayNames m;
     KeywordTopics := KeywordTopics m; ManifestTopics := x;
     TrackerAddresses := TrackerAddresses m; ExactLength := ExactLength m;
     ExactSources := ExactSources m; ExactTopics := ExactTopics m;
     Suplements := Suplements m |}.

Definition set_TrackerAddresses (m : Magnet) x : Magnet :=
  {| AcceptableSources := AcceptableSources m; DisplayNames := DisplayNames m;
     KeywordTopics := KeywordTopics m; ManifestTopics := ManifestTopics m;
     TrackerAddresses := x; ExactLength := ExactLength m;
     ExactSources := ExactSources m; ExactTopics := ExactTopics m;
     Suplements := Suplements m |}.

Definition set_ExactLength (m : Magnet) x : Magnet :=
  {| AcceptableSources := AcceptableSources m; DisplayNames := DisplayNames m;
     KeywordTopics := KeywordTopics m; ManifestTopics := ManifestTopics m;
     TrackerAddresses := TrackerAddresses m; ExactLength := x;
     ExactSources := ExactSources m; ExactTopics := ExactTopics m;
     Suplements := Suplements m |}.

Definition set_ExactSources (m : Magnet) x : Magnet :=
  {| AcceptableSources := AcceptableSources m; DisplayNames := DisplayNames m;
     KeywordTopics := KeywordTopics m; ManifestTopics := ManifestTopics m;
     TrackerAddresses := TrackerAddresses m; ExactLength := ExactLength m;
     ExactSources := x; ExactTopics := ExactTopics m;
     Suplements := Suplements m |}.

Definition set_Suplements (m : Magnet) x : Magnet :=
  {| AcceptableSources := AcceptableSources m; DisplayNames := DisplayNames m;
     KeywordTopics := KeywordTopics m; ManifestTopics := ManifestTopics m;
     TrackerAddresses := TrackerAddresses m; ExactLength := ExactLength m;
     ExactSources := ExactSources m; ExactTopics := ExactTopics m;
     Suplements := x |}.

(** Parses key:value pairs, converts to go types and adds to self. The
    order [o] is the one taken by the [range] loop of [newURN], should
    this pair need it. *)
Definition parseKeyVal (o : RangeOrder) (m : Magnet) (k v : string)
  : result Magnet :=
  mk ← newMagnetKey k;
  match KType mk with
  | KeyAcceptableSource =>
      match url.Parse v with
      | None => Err (url_Error v)
      | Some u => Ok (set_AcceptableSources m (AcceptableSources m ++ [u]))
      end
  | KeyDisplayName =>
      u ← url.QueryUnescape v;
      Ok (set_DisplayNames m (DisplayNames m ++ [u]))
  | KeyKeywordTopic =>
      u ← url.QueryUnescape v;
      Ok (set_KeywordTopics m (KeywordTopics m ++ [u]))
  | KeyManifestTopic =>
      if strings.HasPrefix (strings.ToLower v) "urn" then
        u ← newURN o v;
        Ok (set_ManifestTopics m (ManifestTopics m ++ [TopicURN u]))
      else
        u ← url.QueryUnescape v;
        Ok (set_ManifestTopics m (ManifestTopics m ++ [TopicString u]))
  | KeyTrackerAddress =>
      u ← url.QueryUnescape v;
      Ok (set_TrackerAddresses m (TrackerAddresses m ++ [u]))
  | KeyExactLength =>
      u ← strconv.ParseInt v;
      Ok (set_ExactLength m u)
  | KeyExactSource =>
      Ok (set_ExactSources m (ExactSources m ++ [v]))
  | KeyExactTopic =>
      u ← newURN o v;
      Ok (set_ManifestTopics m (ManifestTopics m ++ [TopicURN u]))
  | KeySuplement =>
      let k2 := str_take 2 k in
      match Suplements m with
      | None => Panic assignment_to_entry_in_nil_map
      | Some sm =>
          Ok (set_Suplements m
                (Some (<[k2 := ((sm !!! k2) ++ [{| Key := Supl mk; Val := v |}])%list]> sm)))
      end
  end.

(** The loop [for _, v := range a] of [parseMagnet] from the token of
    position [i] on; [os i] is the order that the [range] loop of
    [newURN] takes while token [i] is parsed. Both [b[0]] and [b[1]] are
    evaluated before the call. *)
Fixpoint range_tokens (os : nat -> RangeOrder) (i : nat) (m : Magnet)
    (a : list string) : result Magnet :=
  match a with
  | [] => Ok m
  | v :: a' =>
      let b := strings.Split v "=" in
      if (length b <? 1)%nat then Err ErrInvalidMagnet
      else
        b0 ← at_index b 0;
        b1 ← at_index b 1;
        m' ← parseKeyVal (os i) m b0 b1;
        range_tokens os (S i) m' a'
  end.

(** Does the main split then iterates over key:value pairs. *)
Definition parseMagnet (os : nat -> RangeOrder) (m : Magnet) (s : string)
  : result Magnet :=
  let a := strings.Split s ":?" in
  if negb (length a =? 2)%nat then Err ErrInvalidMagnet
  else
    a0 ← at_index a 0;
    if negb (String.eqb (strings.ToLower a0) "magnet") then Err ErrInvalidMagnet
    else
      a1 ← at_index a 1;
      let a := strings.Split a1 "&" in
      if (length a =? 0)%nat then Err ErrInvalidMagnet
      else range_tokens os 0 m a.

(** Creates a new *Magnet structure from a magnet string "s" or an error.
    The record is returned only when [parseMagnet] returns no error. *)
Definition NewMagnet (os : nat -> RangeOrder) (s : string) : result Magnet :=
  m ← parseMagnet os Magnet_zero s;
  Ok m.

End Parser.

(** ** Notions used to state the properties *)

(** The byte [c] occurs in [s]. *)
Fixpoint char_in (c : ascii) (s : string) : bool :=
  match s with
  | "" => false
  | String c' s' => Ascii.eqb c c' || char_in c s'
  end.

(** [strings.Join(a, sep)]. *)
Fixpoint Join (a : list string) (sep : string) : string :=
  match a with
  | [] => ""
  | [x] => x
  | x :: a' => x +:+ sep +:+ Join a' sep
  end.

(** A text over the base-32 alphabet alone: no padding, no line break. *)
Fixpoint in_alphabet (s : string) : bool :=
  match s with
  | "" => true
  | String c s' => bool_decide (is_Some (base32.decodeMap c)) && in_alphabet s'
  end.

Fixpoint all_digits (s : string) : bool :=
  match s with
  | "" => true
  | String c s' => bool_decide (is_Some (strconv.digit c)) && all_digits s'
  end.

(** A numeric text: decimal digits, at least one, after an optional sign. *)
Definition is_decimal (s : string) : bool :=
  match s with
  | "" => false
  | String c s' =>
      let ds := if Ascii.eqb c "+" || Ascii.eqb c "-" then s' else s in
      negb (String.eqb ds "") && all_digits ds
  end.

(** The length that a token of the query contributes: that of its value
    part when its key starts with [xl] and the value is a 64-bit decimal
    integer. Key and value are the first two pieces of the split on [=],
    as in [parseMagnet]. *)
Definition xl_value (tok : string) : option Z :=
  match strings.Split tok "=" with
  | k :: v :: _ =>
      if String.eqb (str_take 2 k) "xl" then
        match strconv.ParseInt v with
        | Ok u => Some u
        | _ => None
        end
      else None
  | _ => None
  end.

(** ** Instances for closed examples *)

(** On inputs of ASCII bytes [strings.ToLower] is [ToLowerASCII]. *)
#[export] Instance ASCII : strings.Unicode :=
  {| strings.ToLower := strings.ToLowerASCII;
     strings.ToLower_empty := eq_refl;
     strings.ToLower_ascii := fun c s _ => eq_refl |}.

(** The closed examples carry no [as] key, so that [url.Parse] is never
    called in them; they are stated for a parser without results. *)
#[export] Instance no_url : url.Parser :=
  {| url.URL := Empty_set; url.Parse := fun _ => None |}.

(** The keys of [HashTypeMap] in the order of the source text. *)
Definition source_keys : list string :=
  ["tree:tiger"; "sha1"; "bitprint"; "ed2k"; "aich"; "kzhash"; "btih"; "md5"].

Definition source_order : RangeOrder :=
  {| range_keys := source_keys;
     range_perm := ltac:(unfold HashTypeMap; rewrite map_to_list_to_map;
                         [reflexivity
                         |apply (bool_decide_unpack _); vm_compute; exact I]) |}.

(** The same keys, last to first. *)
Definition reverse_order : RangeOrder :=
  {| range_keys := reverse source_keys;
     range_perm := ltac:(rewrite reverse_Permutation;
                         exact (range_perm source_order)) |}.

(** ** Notions used to state further properties *)

#[export] Instance KeyType_eq_dec : EqDecision KeyType :=
  ltac:(solve_decision).


(** The digit of value [n] in the table [digits]. *)
Definition digit_of (digits : string) (n : N) : ascii :=
  default "0"%char (String.get (N.to_nat n) digits).

(** [hex.EncodeToString(bs)]: two lower-case digits for each byte. *)
Fixpoint hex_EncodeToString (bs : list byte) : string :=
  match bs with
  | [] => ""
  | b :: bs' =>
      let n := Byte.to_N b in
      String (digit_of "0123456789abcdef" (n / 16))
        (String (digit_of "0123456789abcdef" (n mod 16))
           (hex_EncodeToString bs'))
  end.

(** [shouldEscape(c, encodeQueryComponent)] of net/url: everything but
    the letters, the digits and [-], [_], [.], [~]. *)
Definition shouldEscape (c : ascii) : bool :=
  let n := nat_of_ascii c in
  negb (((97 <=? n) && (n <=? 122)) || ((65 <=? n) && (n <=? 90))
        || ((48 <=? n) && (n <=? 57))
        || (n =? 45) || (n =? 95) || (n =? 46) || (n =? 126))%nat.

(** [url.QueryEscape(s)]: a space becomes [+], any other byte to escape
    becomes [%XX] with upper-case digits. *)
Fixpoint url_QueryEscape (s : string) : string :=
  match s with
  | "" => ""
  | String c s' =>
      if Ascii.eqb c " " then String "+" (url_QueryEscape s')
      else if shouldEscape c then
        let n := N_of_ascii c in
        String "%" (String (digit_of "0123456789ABCDEF" (n / 16))
          (String (digit_of "0123456789ABCDEF" (n mod 16))
             (url_QueryEscape s')))
      else String c (url_QueryEscape s')
  end.

(** The type that the table gives to a key: that of its first two
    bytes. *)
Definition key_type (k : string) : option KeyType :=
  KeyTypeMap !! str_take 2 k.

(** The result of a call, when it has one. *)
Definition result_value {A : Type} (r : result A) : option A :=
  match r with
  | Ok a => Some a
  | _ => None
  end.

(** The values that the tokens [toks] of a query contribute to a field,
    in the order of the tokens: [g k v] for the token of key [k] and
    value [v], the first two pieces of its split on [=]. *)
Definition of_tokens {A : Type} (g : string -> string -> option A)
    (toks : list string) : list A :=
  omap (fun tok =>
          match strings.Split tok "=" with
          | k :: v :: _ => g k v
          | _ => None
          end) toks.

(** The percent-decoded value of a pair whose key has the type [ty]. *)
Definition text_value (ty : KeyType) (k v : string) : option string :=
  if decide (key_type k = Some ty) then result_value (url.QueryUnescape v)
  else None.

(** The raw value of a pair whose key has the type [ty]. *)
Definition raw_value (ty : KeyType) (k v : string) : option string :=
  if decide (key_type k = Some ty) then Some v else None.

Section FieldValues.

Context `{!strings.Unicode} `{!url.Parser}.

(** The URL of a pair with an [as] key. *)
Definition source_value (k v : string) : option url.URL :=
  if decide (key_type k = Some KeyAcceptableSource) then url.Parse v
  else None.

(** The manifest topic of a pair: the URN of an [xt] value, and for an
    [mt] value the URN when its lowered text starts with [urn], the
    percent-decoded text otherwise. *)
Definition topic_value (k v : string) : option ManifestTopic :=
  match key_type k with
  | Some KeyExactTopic => TopicURN <$> result_value (newURN source_order v)
  | Some KeyManifestTopic =>
      if strings.HasPrefix (strings.ToLower v) "urn"
      then TopicURN <$> result_value (newURN source_order v)
      else TopicString <$> result_value (url.QueryUnescape v)
  | _ => None
  end.

(** [parseKeyVal] over a list of pairs, from the token of position [i]
    on. *)
Fixpoint parse_pairs (os : nat -> RangeOrder) (i : nat) (m : Magnet)
    (kvs : list (string * string)) : result Magnet :=
  match kvs with
  | [] => Ok m
  | (k, v) :: kvs' =>
      m' ← parseKeyVal (os i) m k v;
      parse_pairs os (S i) m' kvs'
  end.

End FieldValues.

(** The token [k=v]. *)
Definition token (kv : string * string) : string := kv.1 +:+ "=" +:+ kv.2.

(** The tokens of the query of a magnet string, as [parseMagnet] takes
    them: the text after the one [:?], split on [&]. *)
Definition query_tokens (s : string) : list string :=
  match strings.Split s ":?" with
  | [_; q] => strings.Split q "&"
  | _ => []
  end.

(** A magnet string with keys of seven types, and its parse. *)
Definition sample_string : string :=
  "magnet:?xt=urn:btih:00ff&dn=a+b&tr=udp%3A%2F%2Ft%3A80&kt=x+y&xs=a%2Fb&mt=http%3A%2F%2Fl&xl=10&dn=c".

Definition sample_magnet : Magnet :=
  {| AcceptableSources := [];
     DisplayNames := ["a b"; "c"];
     KeywordTopics := ["x y"];
     ManifestTopics :=
       [TopicURN {| Hashes := [{| HType := HashBTIH;
                                  Data := ["000"; "255"]%byte |}] |};
        TopicString "http://l"];
     TrackerAddresses := ["udp://t:80"];
     ExactLength := 10;
     ExactSources := ["a%2Fb"];
     ExactTopics := [];
     Suplements := None |}.

(** A parser of URLs that accepts every text, for closed examples with
    [as] keys. *)
Definition any_url : url.Parser :=
  {| url.URL := string; url.Parse := fun v => Some v |}.

(** [encodeStd], the alphabet of [base32.StdEncoding]. *)
Definition encodeStd : string := "ABCDEFGHIJKLMNOPQRSTUVWXYZ234567".

(** The eight 5-bit values that [Encode] unpacks from a quantum of five
    source bytes; a byte that the source lacks counts as zero. (Go shifts
    bytes, which drops the bits above the eighth; the mask [0x1F] that
    follows each left shift drops them here.) *)
Definition unpack (s0 s1 s2 s3 s4 : N) : list N :=
  [ N.shiftr s0 3;
    N.lor (N.land (N.shiftl s0 2) 31) (N.land (N.shiftr s1 6) 31);
    N.land (N.shiftr s1 1) 31;
    N.lor (N.land (N.shiftl s1 4) 31) (N.land (N.shiftr s2 4) 31);
    N.lor (N.land (N.shiftl s2 1) 31) (N.shiftr s3 7);
    N.land (N.shiftr s3 2) 31;
    N.lor (N.land (N.shiftl s3 3) 31) (N.shiftr s4 5);
    N.land s4 31 ].

(** The digits of a list of 5-bit values. *)
Fixpoint digits_string (ds : list N) : string :=
  match ds with
  | [] => ""
  | d :: ds' => String (digit_of encodeStd d) (digits_string ds')
  end.

(** The digits of [base32.StdEncoding.EncodeToString(src)], without the
    padding: eight for each five bytes, and two, four, five or seven for
    a last group of one, two, three or four bytes. *)
Fixpoint base32_digits (src : list byte) : string :=
  let n := Byte.to_N in
  match src with
  | [] => ""
  | [s0] => digits_string (take 2 (unpack (n s0) 0 0 0 0))
  | [s0; s1] => digits_string (take 4 (unpack (n s0) (n s1) 0 0 0))
  | [s0; s1; s2] => digits_string (take 5 (unpack (n s0) (n s1) (n s2) 0 0))
  | [s0; s1; s2; s3] =>
      digits_string (take 7 (unpack (n s0) (n s1) (n s2) (n s3) 0))
  | s0 :: s1 :: s2 :: s3 :: s4 :: src' =>
      digits_string (unpack (n s0) (n s1) (n s2) (n s3) (n s4))
      +:+ base32_digits src'
  end.

(** The padding of the last group: [=] up to eight characters. *)
Definition base32_padding (src : list byte) : string :=
  match (length src mod 5)%nat with
  | 1 => "======"
  | 2 => "===="
  | 3 => "==="
  | 4 => "="
  | _ => ""
  end.

(** [base32.StdEncoding.EncodeToString(src)]. *)
Definition base32_EncodeToString (src : list byte) : string :=
  base32_digits src +:+ base32_padding src.

(** The 256 bytes. *)
Definition all_bytes : list byte :=
  omap Byte.of_N (N.of_nat <$> seq 0 256).

(** * Properties *)

Import strings.

#[local] Arguments String.append !_ _ / : simpl nomatch.

(** ** The library models on documented values

    The examples of the package documentation of Go, the test vectors of
    RFC 4648 and the corrupt inputs of the tests of encoding/base32. *)

Example Split_documented :
  Split "a,b,c" "," = ["a"; "b"; "c"]
  /\ Split "a man a plan a canal panama" "a "
     = [""; "man "; "plan "; "canal panama"]
  /\ Split "" "Bernardo O'Higgins" = [""]
  /\ SplitAfterN "a,b,c,d" "," 2 = ["a,"; "b,c,d"]
  /\ SplitAfterN "a,b,c,d" "," 1 = ["a,b,c,d"]
  /\ SplitAfterN "a,b,c,d" "," 0 = []
  /\ Count "cheese" "e" = 3 /\ Index "chicken" "ken" = Some 4
  /\ Index "chicken" "dmr" = None.
Proof. vm_compute. done. Qed.

Example Atoi_documented :
  strconv.Atoi "10" = Ok 10%Z /\ strconv.Atoi "-42" = Ok (-42)%Z
  /\ strconv.Atoi "+7" = Ok 7%Z
  /\ strconv.Atoi "" = Err (strconv_NumError "Atoi" "" ErrSyntax)
  /\ strconv.Atoi "1_0" = Err (strconv_NumError "Atoi" "1_0" ErrSyntax)
  /\ strconv.ParseInt "9223372036854775807" = Ok 9223372036854775807%Z
  /\ strconv.ParseInt "9223372036854775808"
     = Err (strconv_NumError "ParseInt" "9223372036854775808" ErrRange)
  /\ strconv.ParseInt "-9223372036854775808" = Ok (-9223372036854775808)%Z.
Proof. vm_compute. done. Qed.

Example base32_rfc4648 :
  base32.DecodeString "" = Ok []
  /\ base32.DecodeString "MY======" = Ok ["f"]%byte
  /\ base32.DecodeString "MZXQ====" = Ok ["f"; "o"]%byte
  /\ base32.DecodeString "MZXW6===" = Ok ["f"; "o"; "o"]%byte
  /\ base32.DecodeString "MZXW6YQ=" = Ok ["f"; "o"; "o"; "b"]%byte
  /\ base32.DecodeString "MZXW6YTB" = Ok ["f"; "o"; "o"; "b"; "a"]%byte
  /\ base32.DecodeString "MZXW6YTBOI======"
     = Ok ["f"; "o"; "o"; "b"; "a"; "r"]%byte
  /\ Forall (fun s => base32.DecodeString s = Err base32_CorruptInputError)
       ["!!!!"; "x==="; "AA=A===="; "AAA=AAAA"; "MMMMMMMMM"; "MMMMMM"; "A=";
        "AA="; "AA=="; "AA==="; "AAAA="; "AAAA=="; "AAAAA="; "AAAAA==";
        "A======="; "AAA====="; "AAAAAA=="; "my======"].
Proof. vm_compute. repeat split; repeat constructor. Qed.

Example hex_documented :
  hex.DecodeString "48656c6c6f" = Ok ["H"; "e"; "l"; "l"; "o"]%byte
  /\ hex.DecodeString "48656C6C6F" = Ok ["H"; "e"; "l"; "l"; "o"]%byte
  /\ hex.DecodeString "486" = Err hex_ErrLength
  /\ hex.DecodeString "zz" = Err (hex_InvalidByteError "z").
Proof. vm_compute. done. Qed.

Example QueryUnescape_documented :
  url.QueryUnescape "martin+luther+king+mp3" = Ok "martin luther king mp3"
  /\ url.QueryUnescape "udp%3A%2F%2Ftracker.ccc.de%3A80"
     = Ok "udp://tracker.ccc.de:80"
  /\ url.QueryUnescape "100%" = Err (url_EscapeError "%")
  /\ url.QueryUnescape "%zzx" = Err (url_EscapeError "%zz").
Proof. vm_compute. done. Qed.

(** ** Byte strings *)

Section StringFacts.

Implicit Types (s a b p sep : string) (c : ascii).

Lemma len_app a b : len (a +:+ b) = len a + len b.
Proof. induction a as [|c a IH]; simpl; [done | by rewrite IH]. Qed.

Lemma str_app_assoc a b s : (a +:+ b) +:+ s = a +:+ b +:+ s.
Proof. induction a as [|x a IH]; simpl; [done | by rewrite IH]. Qed.

Lemma str_take_app a b : str_take (len a) (a +:+ b) = a.
Proof. induction a as [|c a IH]; simpl; [by destruct b | by rewrite IH]. Qed.

Lemma str_drop_app a b k : str_drop (len a + k) (a +:+ b) = str_drop k b.
Proof. induction a as [|c a IH]; simpl; done. Qed.

Lemma len_drop n s : len (str_drop n s) = len s - n.
Proof.
  revert s; induction n as [|n IH]; intros [|c s]; simpl; auto with lia.
Qed.

Lemma slice_from_app a s : slice_from (a +:+ s) (len a) = Ok s.
Proof.
  unfold slice_from. rewrite len_app.
  destruct (Nat.leb_spec (len a) (len a + len s)); [|lia].
  replace (len a) with (len a + 0) at 1 by lia. by rewrite str_drop_app.
Qed.

Lemma char_in_app c a b : char_in c (a +:+ b) = char_in c a || char_in c b.
Proof.
  induction a as [|c' a IH]; simpl; [done |]. by rewrite IH, orb_assoc.
Qed.

(** *** [HasPrefix] *)

Lemma HasPrefix_app p s : HasPrefix (p +:+ s) p = true.
Proof.
  induction p as [|c p IH]; simpl; [by destruct s |].
  by rewrite Ascii.eqb_refl.
Qed.

Lemma HasPrefix_inv s p :
  HasPrefix s p = true -> s = p +:+ str_drop (len p) s.
Proof.
  revert s; induction p as [|c p IH]; intros s Hp; simpl.
  - done.
  - destruct s as [|c' s]; simpl in *; [done |].
    apply andb_prop in Hp as [Hc Hp]. apply Ascii.eqb_eq in Hc as ->.
    simpl. f_equal. by apply IH.
Qed.

Lemma HasPrefix_len s p : HasPrefix s p = true -> len p <= len s.
Proof. intros Hp. rewrite (HasPrefix_inv _ _ Hp), len_app. lia. Qed.

Lemma HasPrefix_char_in c s p :
  HasPrefix s p = true -> char_in c p = true -> char_in c s = true.
Proof.
  intros Hp Hc. rewrite (HasPrefix_inv _ _ Hp), char_in_app, Hc. done.
Qed.

(** Two prefixes of one string: one of them is a prefix of the other. *)
Lemma HasPrefix_chain s p q :
  HasPrefix s p = true -> HasPrefix s q = true ->
  HasPrefix p q = true \/ HasPrefix q p = true.
Proof.
  revert p q; induction s as [|c s IH]; intros [|a p] [|b q] Hp Hq;
    simpl in *; auto; try done.
  apply andb_prop in Hp as [Ha Hp]. apply andb_prop in Hq as [Hb Hq].
  apply Ascii.eqb_eq in Ha as ->. apply Ascii.eqb_eq in Hb as ->.
  rewrite Ascii.eqb_refl. simpl. by apply IH.
Qed.

(** *** [Index] *)

Lemma Index_unfold s sep :
  Index s sep =
    if HasPrefix s sep then Some 0
    else match s with
         | "" => None
         | String _ s' => S <$> Index s' sep
         end.
Proof. by destruct s. Qed.

Lemma Index_bound s sep m : Index s sep = Some m -> m + len sep <= len s.
Proof.
  revert m; induction s as [|c s IH]; intros m.
  - destruct sep; simpl; [|done]. intros [= <-]. simpl. lia.
  - cbn [Index]. destruct (HasPrefix (String c s) sep) eqn:Hp.
    + intros [= <-]. apply HasPrefix_len in Hp. simpl in *. lia.
    + destruct (Index s sep) as [m'|]; simpl; [|done].
      intros [= <-]. specialize (IH m' eq_refl). lia.
Qed.

Lemma Index_here sep s : Index (sep +:+ s) sep = Some 0.
Proof. by rewrite Index_unfold, HasPrefix_app. Qed.

(** A stretch [a] without the first byte of [sep] holds no instance of
    [sep], and none starts in it. *)
Lemma Index_skip c sep a s :
  char_in c a = false ->
  Index (a +:+ s) (String c sep)
  = (fun m => len a + m) <$> Index s (String c sep).
Proof.
  induction a as [|c' a IH]; intros Hc.
  - simpl "+:+". by destruct (Index s _).
  - simpl in Hc. apply orb_false_elim in Hc as [Hc Ha].
    cbn [append Index HasPrefix]. rewrite Hc. cbn [andb].
    rewrite (IH Ha). by destruct (Index s _).
Qed.

Lemma Index_absent c sep s :
  char_in c s = false -> Index s (String c sep) = None.
Proof.
  induction s as [|c' s IH]; intros Hc; [done |].
  simpl in Hc. apply orb_false_elim in Hc as [Hc Hs].
  cbn [Index HasPrefix]. rewrite Hc. cbn [andb]. by rewrite (IH Hs).
Qed.

(** A string that lacks some byte of [sep] holds no instance of [sep]. *)
Lemma Index_absent_any c s sep :
  char_in c sep = true -> char_in c s = false -> Index s sep = None.
Proof.
  intros Hsep. induction s as [|c' s IH]; intros Hs.
  - destruct sep; [done |]. done.
  - rewrite Index_unfold.
    destruct (HasPrefix (String c' s) sep) eqn:Hp.
    + by rewrite (HasPrefix_char_in _ _ _ Hp Hsep) in Hs.
    + simpl in Hs. apply orb_false_elim in Hs as [_ Hs]. by rewrite IH.
Qed.

(** *** [Count] *)

(** The loop of [Count] needs no more rounds than [s] has bytes. *)
Lemma Count_loop_fuel sep :
  sep <> "" ->
  forall f f' s, len s <= f -> len s <= f' ->
    Count_loop f s sep = Count_loop f' s sep.
Proof.
  intros Hsep. induction f as [|f IH]; intros f' s Hf Hf'.
  - destruct s; [|simpl in Hf; lia].
    destruct f'; [done |]. simpl. by destruct sep.
  - destruct f' as [|f'].
    + destruct s; [|simpl in Hf'; lia]. simpl. by destruct sep.
    + simpl. destruct (Index s sep) as [m|] eqn:Hi; [|done].
      f_equal. apply Index_bound in Hi.
      assert (0 < len sep) by (destruct sep; simpl; [done | lia]).
      apply IH; rewrite len_drop; lia.
Qed.

Lemma Count_loop_le sep :
  sep <> "" -> forall f s, Count_loop f s sep <= len s.
Proof.
  intros Hsep. induction f as [|f IH]; intros s; simpl; [lia |].
  destruct (Index s sep) as [m|] eqn:Hi; [|lia].
  apply Index_bound in Hi.
  assert (0 < len sep) by (destruct sep; simpl; [done | lia]).
  specialize (IH (str_drop (m + len sep) s)). rewrite len_drop in IH. lia.
Qed.

Lemma Count_Some s sep m :
  sep <> "" -> Index s sep = Some m ->
  Count s sep = S (Count (str_drop (m + len sep) s) sep).
Proof.
  intros Hsep Hi. unfold Count. pose proof (Index_bound _ _ _ Hi) as Hb.
  assert (0 < len sep) by (destruct sep; simpl; [done | lia]).
  destruct (len s) as [|n] eqn:Hn; [lia |].
  simpl. rewrite Hi. f_equal.
  apply Count_loop_fuel; [done | rewrite len_drop; lia | done].
Qed.

Lemma Count_None s sep : Index s sep = None -> Count s sep = 0.
Proof.
  intros Hi. unfold Count. destruct (len s); simpl; [done | by rewrite Hi].
Qed.

(** *** [Split] *)

(** [Split] and [SplitAfterN] never return an empty slice, except
    [SplitAfterN] for [n = 0]. *)
Lemma Split_nonempty s sep : Split s sep <> [].
Proof.
  unfold Split, genSplit. simpl.
  by destruct (Z.to_nat _); simpl; [|destruct (Index s sep)].
Qed.

(** [SplitAfterN(s, sep, 1)] makes no cut. *)
Lemma SplitAfterN_1 s sep : SplitAfterN s sep 1 = [s].
Proof.
  unfold SplitAfterN, genSplit. simpl.
  destruct (Z.ltb_spec (Z.of_nat (len s) + 1) 1); [lia | done].
Qed.

Lemma Split_loop s sep :
  sep <> "" -> Split s sep = genSplit_loop (Count s sep) s sep 0.
Proof.
  intros Hsep. unfold Split, genSplit. simpl.
  pose proof (Count_loop_le sep Hsep (len s) s) as Hle.
  fold (Count s sep) in Hle.
  destruct (Z.ltb_spec (Z.of_nat (len s) + 1) (Z.of_nat (Count s sep) + 1));
    [lia |].
  f_equal. lia.
Qed.

(** The two equations of [Split]: cut at the first instance of [sep] and
    split the rest, or return [s] whole. *)
Lemma Split_Some s sep m :
  sep <> "" -> Index s sep = Some m ->
  Split s sep = str_take m s :: Split (str_drop (m + len sep) s) sep.
Proof.
  intros Hsep Hi. rewrite !Split_loop by done.
  rewrite (Count_Some _ _ _ Hsep Hi). simpl. rewrite Hi.
  by rewrite Nat.add_0_r.
Qed.

Lemma Split_None s sep : Index s sep = None -> Split s sep = [s].
Proof.
  intros Hi. assert (sep <> "") as Hsep.
  { intros ->. by destruct s. }
  rewrite Split_loop, (Count_None _ _ Hi) by done. done.
Qed.

(** One piece more than there are instances of [sep]. *)
Lemma Split_length s sep :
  sep <> "" -> length (Split s sep) = S (Count s sep).
Proof.
  intros Hsep. remember (len s) as n eqn:Hn.
  revert s Hn. induction (lt_wf n) as [n _ IH]. intros s ->.
  destruct (Index s sep) as [m|] eqn:Hi.
  - rewrite (Split_Some _ _ _ Hsep Hi), (Count_Some _ _ _ Hsep Hi). simpl.
    f_equal. apply Index_bound in Hi.
    assert (0 < len sep) by (destruct sep; simpl; [done | lia]).
    eapply IH; [|done]. rewrite len_drop. lia.
  - by rewrite (Split_None _ _ Hi), (Count_None _ _ Hi).
Qed.

Lemma Split_singleton_inv s sep x :
  sep <> "" -> Split s sep = [x] -> Index s sep = None /\ x = s.
Proof.
  intros Hsep Hs. destruct (Index s sep) as [m|] eqn:Hi.
  - pose proof (Split_length (str_drop (m + len sep) s) sep Hsep) as Hl.
    rewrite (Split_Some _ _ _ Hsep Hi) in Hs.
    injection Hs as _ Hs. rewrite Hs in Hl. done.
  - rewrite (Split_None _ _ Hi) in Hs. by injection Hs as <-.
Qed.

Lemma Split_app_sep c sep a s :
  char_in c a = false ->
  Split (a +:+ String c sep +:+ s) (String c sep)
  = a :: Split s (String c sep).
Proof.
  intros Hc.
  assert (Index (a +:+ String c sep +:+ s) (String c sep) = Some (len a))
    as Hi.
  { rewrite (Index_skip _ _ _ _ Hc), Index_here. simpl. f_equal. lia. }
  assert (String c sep <> "") as Hne by done.
  rewrite (Split_Some _ _ _ Hne Hi).
  rewrite str_take_app, str_drop_app.
  replace (len (String c sep)) with (len (String c sep) + 0) by lia.
  by rewrite str_drop_app.
Qed.

Lemma Split_absent c sep s :
  char_in c s = false -> Split s (String c sep) = [s].
Proof. intros Hc. apply Split_None. by apply Index_absent. Qed.

(** Splitting undoes joining, when no piece holds the separator. *)
Lemma Split_Join c toks :
  toks <> [] -> Forall (fun t => char_in c t = false) toks ->
  Split (Join toks (String c "")) (String c "") = toks.
Proof.
  induction toks as [|t toks IH]; [done |]. intros _ Hf.
  apply Forall_cons in Hf as [Ht Hf]. destruct toks as [|t' toks].
  - simpl. by apply Split_absent.
  - cbn [Join]. rewrite (Split_app_sep c "" t _ Ht). f_equal. by apply IH.
Qed.

Lemma char_in_Join c toks sep :
  char_in c sep = false -> Forall (fun t => char_in c t = false) toks ->
  char_in c (Join toks sep) = false.
Proof.
  intros Hs. induction toks as [|t toks IH]; [done |]. intros Hf.
  apply Forall_cons in Hf as [Ht Hf]. destruct toks as [|t' toks]; [done |].
  cbn [Join]. rewrite !char_in_app, Ht, Hs. simpl. by apply IH.
Qed.

End StringFacts.

(** ** [strings.ToLower] on ASCII *)

Section UnicodeFacts.

Context `{!strings.Unicode}.

Lemma ToLower_app a s :
  isASCII a = true -> ToLower (a +:+ s) = ToLowerASCII a +:+ ToLower s.
Proof.
  induction a as [|c a IH]; intros Ha; [done |].
  simpl in Ha. apply andb_prop in Ha as [Hc Ha].
  simpl. by rewrite ToLower_ascii, IH.
Qed.

Lemma ToLower_ASCII s : isASCII s = true -> ToLower s = ToLowerASCII s.
Proof.
  induction s as [|c s IH]; intros Hs; [apply ToLower_empty |].
  simpl in Hs. apply andb_prop in Hs as [Hc Hs].
  simpl. by rewrite ToLower_ascii, IH.
Qed.

End UnicodeFacts.

(** ** Numbers and alphabets *)

Lemma Atoi_no_panic s p : strconv.Atoi s <> Panic p.
Proof.
  unfold strconv.Atoi, strconv.ParseInt_as. destruct s as [|c s]; [done |].
  destruct (strconv.ParseUint _) as [un|[]]; try done;
    repeat (destruct (_ && _)); done.
Qed.

Lemma ParseUint_loop_not_digits s :
  all_digits s = false ->
  forall n, exists e, strconv.ParseUint_loop s n = inr e.
Proof.
  induction s as [|c s IH]; intros Hs n; [done |].
  simpl in *. destruct (strconv.digit c) as [d|]; [|eauto].
  rewrite bool_decide_true in Hs by eauto. simpl in Hs.
  destruct (_ <=? n)%Z; [eauto |]. destruct (_ <? _)%Z; [eauto |]. by apply IH.
Qed.

(** [ParseInt] rejects every text that is not numeric, with a [*NumError]
    that quotes the text. *)
Lemma ParseInt_not_decimal v :
  is_decimal v = false ->
  exists ne, strconv.ParseInt v = Err (strconv_NumError "ParseInt" v ne).
Proof.
  unfold is_decimal, strconv.ParseInt, strconv.ParseInt_as.
  destruct v as [|c s]; [eauto |].
  set (ds := if Ascii.eqb c "+" || Ascii.eqb c "-" then s else String c s).
  intros Hd.
  assert (exists e, strconv.ParseUint ds = inr e) as [e He].
  { unfold strconv.ParseUint. destruct ds as [|c' ds'] eqn:E; [eauto |].
    simpl in Hd. rewrite <- E in *. apply ParseUint_loop_not_digits.
    by rewrite E. }
  rewrite He. destruct e; [eauto |].
  destruct (Ascii.eqb c "-"); simpl; eauto.
Qed.

Lemma ParseInt_Ok_decimal v u :
  strconv.ParseInt v = Ok u -> is_decimal v = true.
Proof.
  intros Hv. destruct (is_decimal v) eqn:Hd; [done |].
  apply ParseInt_not_decimal in Hd as [ne Hd]. congruence.
Qed.

Lemma all_digits_char_in c s :
  strconv.digit c = None -> all_digits s = true -> char_in c s = false.
Proof.
  intros Hc. induction s as [|c' s IH]; simpl; [done |].
  intros [Hc' Hs]%andb_prop. rewrite (IH Hs), orb_false_r.
  apply bool_decide_eq_true in Hc'. apply Ascii.eqb_neq. intros ->.
  rewrite Hc in Hc'. by destruct Hc'.
Qed.

Lemma is_decimal_char_in c s :
  strconv.digit c = None -> c <> "+"%char -> c <> "-"%char ->
  is_decimal s = true -> char_in c s = false.
Proof.
  intros Hc Hp Hm. unfold is_decimal. destruct s as [|c' s]; [done |].
  intros [_ Hd]%andb_prop.
  destruct (Ascii.eqb c' "+" || Ascii.eqb c' "-") eqn:Hs.
  - simpl. rewrite (all_digits_char_in _ _ Hc Hd), orb_false_r.
    apply Ascii.eqb_neq. intros ->.
    apply orb_prop in Hs as [Hs|Hs]; apply Ascii.eqb_eq in Hs; done.
  - by apply all_digits_char_in.
Qed.

Lemma in_alphabet_char_in c s :
  base32.decodeMap c = None -> in_alphabet s = true -> char_in c s = false.
Proof.
  intros Hc. induction s as [|c' s IH]; simpl; [done |].
  intros [Hc' Hs]%andb_prop. rewrite (IH Hs), orb_false_r.
  apply bool_decide_eq_true in Hc'. apply Ascii.eqb_neq. intros ->.
  rewrite Hc in Hc'. by destruct Hc'.
Qed.

(** The fuel of [base32.decode] is enough: a round that does not end the
    loop consumes eight bytes. *)
Lemma quantum_shrinks k :
  forall dbuf src d e src',
    base32.quantum k dbuf src = Some (d, e, src') ->
    len src' + (if e then 1 else k) <= len src.
Proof.
  induction k as [|k IH]; intros dbuf src d e src'; simpl.
  - intros [= <- <- <-]. lia.
  - destruct src as [|c src0]; [done |].
    destruct (_ && _ && _).
    + destruct (_ <? _)%nat; [done |]. destruct (negb _); [done |].
      destruct (_ || _)%nat; [done |]. intros [= <- <- <-]. simpl. lia.
    + destruct (base32.decodeMap c) as [v|]; [|done].
      intros Hq. apply IH in Hq. simpl. destruct e; lia.
Qed.

Lemma decode_fuel :
  forall f f' src, len src <= f -> len src <= f' ->
    base32.decode f src = base32.decode f' src.
Proof.
  induction f as [|f IH]; intros f' src Hf Hf'.
  - destruct src; [|simpl in Hf; lia]. by destruct f'.
  - destruct f' as [|f'].
    + destruct src; [done | simpl in Hf'; lia].
    + destruct src as [|c src0]; [done |].
      cbn [base32.decode].
      destruct (base32.quantum 8 [] (String c src0)) as [[[d e] src']|] eqn:Hq;
        [|done].
      destruct e; [done |]. apply quantum_shrinks in Hq.
      f_equal. apply IH; lia.
Qed.

(** The one error of the base-32 decoder. *)
Lemma DecodeString_error s e :
  base32.DecodeString s = Err e -> e = base32_CorruptInputError.
Proof.
  unfold base32.DecodeString. destruct (base32.decode _ _); [done |].
  by intros [= <-].
Qed.

Lemma bind_Ok_inv {A B} (r : result A) (f : A -> B) y :
  (x ← r; Ok (f x)) = Ok y -> exists x, r = Ok x /\ y = f x.
Proof. destruct r as [x| |]; simpl; [|done..]. intros [= <-]. eauto. Qed.

(** ** The two tables *)

(** Every order of the [range] loop visits the eight keys of the source
    text. *)
Lemma range_order_elem (o : RangeOrder) d :
  d ∈ range_keys o <-> d ∈ source_keys.
Proof. by rewrite (range_perm o), (range_perm source_order). Qed.

Lemma HashTypeMap_values :
  HashTypeMap !!! "tree:tiger" = HashTTH /\ HashTypeMap !!! "sha1" = HashSHA1
  /\ HashTypeMap !!! "bitprint" = HashBitPrint
  /\ HashTypeMap !!! "ed2k" = HashED2K /\ HashTypeMap !!! "aich" = HashAICH
  /\ HashTypeMap !!! "kzhash" = HashKazaa /\ HashTypeMap !!! "btih" = HashBTIH
  /\ HashTypeMap !!! "md5" = HashMD5.
Proof. vm_compute. done. Qed.

(** No scheme tag is a prefix of another one. *)
Lemma tags_prefix_free d d' :
  d ∈ source_keys -> d' ∈ source_keys -> HasPrefix d d' = true -> d = d'.
Proof.
  assert (Forall (fun d => Forall (fun d' =>
            HasPrefix d d' = true -> d = d') source_keys) source_keys) as H.
  { repeat (constructor; [repeat (constructor; [vm_compute; try done |]);
                         constructor |]); constructor. }
  intros Hd Hd'. rewrite Forall_forall in H. specialize (H d Hd).
  rewrite Forall_forall in H. by apply H.
Qed.

(** Hence no string starts with two of them. *)
Lemma tag_unique s d d' :
  d ∈ source_keys -> d' ∈ source_keys ->
  HasPrefix s d = true -> HasPrefix s d' = true -> d = d'.
Proof.
  intros Hd Hd' Hp Hp'.
  destruct (HasPrefix_chain _ _ _ Hp Hp') as [H|H].
  - by apply tags_prefix_free.
  - symmetry. by apply tags_prefix_free.
Qed.

Lemma KeyTypeMap_xl x : KeyTypeMap !! x = Some KeyExactLength <-> x = "xl".
Proof.
  split; [|by intros ->; vm_compute].
  unfold KeyTypeMap. intros Hx%elem_of_list_to_map_2. set_unfold in Hx.
  destruct Hx as [Hx|[Hx|[Hx|[Hx|[Hx|[Hx|[Hx|[Hx|[Hx|[]]]]]]]]]];
    by simplify_eq.
Qed.

Lemma KeyTypeMap_supplement : KeyTypeMap !! "x." = Some KeySuplement.
Proof. vm_compute. reflexivity. Qed.

(** ** [newURN] *)

Section URNFacts.

Context `{!strings.Unicode}.

Lemma range_HashTypeMap_hit ds urn d :
  d ∈ ds ->
  (forall d', d' ∈ ds -> HasPrefix (ToLower urn) d' = true -> d' = d) ->
  HasPrefix (ToLower urn) d = true ->
  range_HashTypeMap ds urn
  = (hd ← slice_from urn (len d + 1); Ok (Some (HashTypeMap !!! d), hd)).
Proof.
  induction ds as [|a ds IH]; intros Hin Hu Hp; [by inversion Hin |].
  simpl. destruct (HasPrefix (ToLower urn) a) eqn:Ha.
  - by rewrite (Hu a (list_elem_of_here _ _) Ha).
  - apply IH; [| |done].
    + apply elem_of_cons in Hin as [->|]; [congruence | done].
    + intros d' Hd'. apply Hu. by apply list_elem_of_further.
Qed.

Lemma range_HashTypeMap_miss ds urn :
  (forall d, d ∈ ds -> HasPrefix (ToLower urn) d = false) ->
  range_HashTypeMap ds urn = Ok (None, "").
Proof.
  induction ds as [|a ds IH]; intros Hm; [done |].
  simpl. rewrite (Hm a) by apply list_elem_of_here.
  apply IH. intros d Hd. apply Hm. by apply list_elem_of_further.
Qed.

(** In every order the loop stops at the one tag that prefixes [urn]. *)
Lemma range_HashTypeMap_tag (o : RangeOrder) urn d :
  d ∈ source_keys -> HasPrefix (ToLower urn) d = true ->
  range_HashTypeMap o urn
  = (hd ← slice_from urn (len d + 1); Ok (Some (HashTypeMap !!! d), hd)).
Proof.
  intros Hd Hp.
  apply range_HashTypeMap_hit; [by apply (range_order_elem o) | | done].
  intros d' Hd' Hp'. apply (range_order_elem o) in Hd'. by eapply tag_unique.
Qed.

Lemma range_HashTypeMap_none (o : RangeOrder) urn :
  (forall d, d ∈ source_keys -> HasPrefix (ToLower urn) d = false) ->
  range_HashTypeMap o urn = Ok (None, "").
Proof.
  intros Hm. apply range_HashTypeMap_miss.
  intros d Hd. apply Hm. by apply (range_order_elem o).
Qed.

Lemma range_HashTypeMap_order (o1 o2 : RangeOrder) urn :
  range_HashTypeMap o1 urn = range_HashTypeMap o2 urn.
Proof.
  destruct (decide (Exists (fun d => HasPrefix (ToLower urn) d = true)
                      source_keys)) as [He|Hn].
  - apply Exists_exists in He as (d & Hd & Hp).
    by rewrite !(range_HashTypeMap_tag _ urn d).
  - rewrite !range_HashTypeMap_none; [done | |];
      intros d Hd; apply not_true_is_false; intros Hp;
      apply Hn, Exists_exists; eauto.
Qed.

Lemma newURN_order (o1 o2 : RangeOrder) v : newURN o1 v = newURN o2 v.
Proof.
  unfold newURN. destruct (negb _); [done |].
  destruct (at_index _ 1) as [urn| |]; simpl; [|done..].
  by rewrite (range_HashTypeMap_order o1 o2).
Qed.

Lemma newURN_pieces o v :
  length (Split v "urn:") <> 2 -> newURN o v = Err ErrInvalidMagnet.
Proof.
  intros Hl. unfold newURN.
  destruct (Nat.eqb_spec (length (Split v "urn:")) 2); done.
Qed.

Lemma newURN_split o v pre urn :
  Split v "urn:" = [pre; urn] ->
  newURN o v
  = ('(ht, hd) ← range_HashTypeMap o urn; switch_ht {| Hashes := [] |} ht hd).
Proof. intros Hs. unfold newURN. by rewrite Hs. Qed.

Lemma newURN_tag o v pre urn d :
  Split v "urn:" = [pre; urn] ->
  d ∈ source_keys -> HasPrefix (ToLower urn) d = true ->
  newURN o v
  = (hd ← slice_from urn (len d + 1);
     switch_ht {| Hashes := [] |} (Some (HashTypeMap !!! d)) hd).
Proof.
  intros Hs Hd Hp. rewrite (newURN_split _ _ _ _ Hs).
  rewrite (range_HashTypeMap_tag _ _ _ Hd Hp).
  by destruct (slice_from urn (len d + 1)).
Qed.

(** The split of a URN that starts with [urn:] and holds no second one. *)
Lemma Split_urn urn :
  Index urn "urn:" = None -> Split ("urn:" +:+ urn) "urn:" = [""; urn].
Proof.
  intros Hi. assert ("urn:" <> "") as Hne by done.
  rewrite (Split_Some _ _ 0 Hne) by apply Index_here.
  simpl. by rewrite (Split_None _ _ Hi).
Qed.

Lemma Split_urn_tagged a p :
  char_in "u" a = false -> Index p "urn:" = None ->
  Split ("urn:" +:+ a +:+ p) "urn:" = [""; a +:+ p].
Proof.
  intros Ha Hp. apply Split_urn.
  by rewrite (Index_skip "u" "rn:" a p Ha), Hp.
Qed.

(** The piece before [urn:] plays no part. *)
Lemma newURN_ignores_prefix o v pre urn :
  Split v "urn:" = [pre; urn] -> newURN o v = newURN o ("urn:" +:+ urn).
Proof.
  intros Hs. assert ("urn:" <> "") as Hne by done.
  assert (Index urn "urn:" = None) as Hi.
  { destruct (Index v "urn:") as [m|] eqn:Hm.
    - rewrite (Split_Some _ _ _ Hne Hm) in Hs. injection Hs as _ Hs.
      by apply Split_singleton_inv in Hs as [? ->].
    - by rewrite (Split_None _ _ Hm) in Hs. }
  by rewrite (newURN_split _ _ _ _ Hs),
       (newURN_split _ _ _ _ (Split_urn _ Hi)).
Qed.

(** A URN [urn:<tag>:<payload>] with one of the eight tags and no second
    [urn:] reaches the [switch] with the type of the tag and the payload,
    in every order of the [range] loop. *)
Lemma newURN_scheme o d payload :
  d ∈ source_keys -> Index payload "urn:" = None ->
  newURN o ("urn:" +:+ d +:+ ":" +:+ payload)
  = switch_ht {| Hashes := [] |} (Some (HashTypeMap !!! d)) payload.
Proof.
  intros Hd Hp.
  assert (char_in "u" (d +:+ ":") = false /\ isASCII (d +:+ ":") = true
          /\ HasPrefix (ToLowerASCII (d +:+ ":")) d = true) as (Hu & Ha & Hl).
  { unfold source_keys in Hd. set_unfold in Hd.
    destruct Hd as [->|[->|[->|[->|[->|[->|[->|[->|[]]]]]]]]]; by vm_compute. }
  assert (Split ("urn:" +:+ d +:+ ":" +:+ payload) "urn:"
          = [""; (d +:+ ":") +:+ payload]) as Hs.
  { rewrite <- (Split_urn_tagged _ _ Hu Hp). f_equal.
    by rewrite str_app_assoc. }
  rewrite (newURN_tag o _ _ _ d Hs Hd).
  - replace (len d + 1) with (len (d +:+ ":")) by (rewrite len_app; simpl; lia).
    by rewrite slice_from_app.
  - rewrite (ToLower_app _ _ Ha).
    apply HasPrefix_inv in Hl. rewrite Hl, str_app_assoc.
    apply HasPrefix_app.
Qed.

(** With a second [urn:] in the payload the split has three pieces or
    more. *)
Lemma newURN_scheme_twice o d payload m :
  d ∈ source_keys -> Index payload "urn:" = Some m ->
  newURN o ("urn:" +:+ d +:+ ":" +:+ payload) = Err ErrInvalidMagnet.
Proof.
  intros Hd Hp. assert ("urn:" <> "") as Hne by done.
  assert (char_in "u" (d +:+ ":") = false) as Hu.
  { unfold source_keys in Hd. set_unfold in Hd.
    destruct Hd as [->|[->|[->|[->|[->|[->|[->|[->|[]]]]]]]]]; by vm_compute. }
  apply newURN_pieces.
  rewrite (Split_Some _ _ 0 Hne) by apply Index_here.
  replace (str_drop (0 + len "urn:") ("urn:" +:+ d +:+ ":" +:+ payload))
    with ((d +:+ ":") +:+ payload) by by rewrite str_app_assoc.
  assert (Index ((d +:+ ":") +:+ payload) "urn:"
          = Some (len (d +:+ ":") + m)) as Hi.
  { by rewrite (Index_skip "u" "rn:" _ payload Hu), Hp. }
  rewrite (Split_Some _ _ _ Hne Hi). simpl.
  pose proof (Split_nonempty
    (str_drop (len (d +:+ ":") + m + 4) ((d +:+ ":") +:+ payload)) "urn:").
  destruct (Split _ "urn:"); simpl; [done | lia].
Qed.

End URNFacts.

(** ** [newMagnetKey] *)

Lemma newMagnetKey_supplement tag :
  newMagnetKey ("x." +:+ tag) = Err ErrInvalidMagnet.
Proof.
  unfold newMagnetKey.
  change (str_take 2 ("x." +:+ tag)) with "x.".
  rewrite KeyTypeMap_supplement, SplitAfterN_1. done.
Qed.

(** What a successful classification tells about the key. *)
Lemma newMagnetKey_Ok k mk :
  newMagnetKey k = Ok mk ->
  2 <= len k /\ KeyTypeMap !! str_take 2 k = Some (KType mk)
  /\ KType mk <> KeySuplement /\ Supl mk = ""
  /\ match Split k "." with
     | [_] => Indx mk = 0%Z
     | [_; c1] => strconv.Atoi c1 = Ok (Indx mk)
     | _ => False
     end.
Proof.
  unfold newMagnetKey. destruct (Nat.ltb_spec (len k) 2) as [|Hlen]; [done |].
  destruct (KeyTypeMap !! str_take 2 k) as [ty|] eqn:Hty; [|done].
  assert (ty <> KeySuplement ->
    match Split k "." with
    | [] => Ok {| KType := ty; Indx := 0; Supl := "" |}
    | [_] => Ok {| KType := ty; Indx := 0; Supl := "" |}
    | [_; c1] =>
        match strconv.Atoi c1 with
        | Ok v => Ok {| KType := ty; Indx := v; Supl := "" |}
        | Err _ => Err ErrInvalidMagnet
        | Panic p => Panic p
        end
    | _ => Err ErrInvalidMagnet
    end = Ok mk ->
    2 <= len k /\ Some ty = Some (KType mk) /\ KType mk <> KeySuplement
    /\ Supl mk = ""
    /\ match Split k "." with
       | [_] => Indx mk = 0%Z
       | [_; c1] => strconv.Atoi c1 = Ok (Indx mk)
       | _ => False
       end) as Hplain.
  { intros Hty'. pose proof (Split_nonempty k ".") as Hne.
    destruct (Split k ".") as [|c0 [|c1 [|c2 c]]]; try done.
    - intros [= <-]. done.
    - destruct (strconv.Atoi c1) as [v| |]; try done. intros [= <-]. done. }
  destruct ty; simpl;
    try (intros Hk; apply Hplain; [done |];
         pose proof (Split_nonempty k ".");
         by destruct (Split k ".") as [|c0 [|c1 [|c2 c]]]).
  by rewrite SplitAfterN_1.
Qed.

(** The classification of a key whose prefix is in the table and is not
    the supplement prefix. *)
Lemma newMagnetKey_plain k ty :
  2 <= len k -> KeyTypeMap !! str_take 2 k = Some ty -> ty <> KeySuplement ->
  newMagnetKey k =
    match Split k "." with
    | [_; c1] =>
        match strconv.Atoi c1 with
        | Ok v => Ok {| KType := ty; Indx := v; Supl := "" |}
        | _ => Err ErrInvalidMagnet
        end
    | _ :: _ :: _ :: _ => Err ErrInvalidMagnet
    | _ => Ok {| KType := ty; Indx := 0; Supl := "" |}
    end.
Proof.
  intros Hlen Hty Hne. unfold newMagnetKey.
  destruct (Nat.ltb_spec (len k) 2); [lia |]. rewrite Hty.
  destruct ty; try done; simpl;
    (destruct (Split k ".") as [|c0 [|c1 [|c2 c]]]; try done;
     simpl; destruct (strconv.Atoi c1) as [v| |] eqn:Ha; try done;
     by apply Atoi_no_panic in Ha).
Qed.

(** [newMagnetKey] has one error and never panics. *)
Lemma newMagnetKey_error k e : newMagnetKey k = Err e -> e = ErrInvalidMagnet.
Proof.
  unfold newMagnetKey. destruct (_ <? 2)%nat; [by intros [= <-] |].
  destruct (KeyTypeMap !! _) as [ty|]; [|by intros [= <-]].
  destruct ty; simpl; rewrite ?SplitAfterN_1; simpl; try (by intros [= <-]);
    (destruct (Split k ".") as [|c0 [|c1 [|c2 c]]]; simpl; try done;
     try (by intros [= <-]);
     destruct (strconv.Atoi c1); simpl; try done; by intros [= <-]).
Qed.

Lemma newMagnetKey_no_panic k p : newMagnetKey k <> Panic p.
Proof.
  unfold newMagnetKey. destruct (_ <? 2)%nat; [done |].
  destruct (KeyTypeMap !! _) as [ty|]; [|done].
  destruct ty; simpl; rewrite ?SplitAfterN_1; simpl; try done;
    (destruct (Split k ".") as [|c0 [|c1 [|c2 c]]]; simpl; try done;
     destruct (strconv.Atoi c1) eqn:Ha; simpl; try done;
     by apply Atoi_no_panic in Ha).
Qed.

Lemma newMagnetKey_xt :
  newMagnetKey "xt" = Ok {| KType := KeyExactTopic; Indx := 0; Supl := "" |}.
Proof. by vm_compute. Qed.

Lemma newMagnetKey_xl :
  newMagnetKey "xl" = Ok {| KType := KeyExactLength; Indx := 0; Supl := "" |}.
Proof. by vm_compute. Qed.

(** ** [parseKeyVal], [parseMagnet] and [NewMagnet] *)

Section AssemblerFacts.

Context `{!strings.Unicode} `{!url.Parser}.

(** [parseKeyVal] once the key is classified. The supplement type is not
    among the cases: no key is classified so. *)
Lemma parseKeyVal_classified o m k v mk :
  newMagnetKey k = Ok mk ->
  parseKeyVal o m k v
  = match KType mk with
    | KeyAcceptableSource =>
        match url.Parse v with
        | None => Err (url_Error v)
        | Some u => Ok (set_AcceptableSources m (AcceptableSources m ++ [u]))
        end
    | KeyDisplayName =>
        u ← url.QueryUnescape v;
        Ok (set_DisplayNames m (DisplayNames m ++ [u]))
    | KeyKeywordTopic =>
        u ← url.QueryUnescape v;
        Ok (set_KeywordTopics m (KeywordTopics m ++ [u]))
    | KeyManifestTopic =>
        if HasPrefix (ToLower v) "urn" then
          u ← newURN o v;
          Ok (set_ManifestTopics m (ManifestTopics m ++ [TopicURN u]))
        else
          u ← url.QueryUnescape v;
          Ok (set_ManifestTopics m (ManifestTopics m ++ [TopicString u]))
    | KeyTrackerAddress =>
        u ← url.QueryUnescape v;
        Ok (set_TrackerAddresses m (TrackerAddresses m ++ [u]))
    | KeyExactLength => u ← strconv.ParseInt v; Ok (set_ExactLength m u)
    | KeyExactSource => Ok (set_ExactSources m (ExactSources m ++ [v]))
    | _ =>
        u ← newURN o v;
        Ok (set_ManifestTopics m (ManifestTopics m ++ [TopicURN u]))
    end.
Proof.
  intros Hk. unfold parseKeyVal. rewrite Hk. simpl.
  apply newMagnetKey_Ok in Hk as (_ & _ & Hs & _). by destruct (KType mk).
Qed.

Lemma parseKeyVal_order (o1 o2 : RangeOrder) m k v :
  parseKeyVal o1 m k v = parseKeyVal o2 m k v.
Proof.
  unfold parseKeyVal. destruct (newMagnetKey k) as [mk| |]; simpl; [|done..].
  destruct (KType mk); try done.
  - destruct (HasPrefix _ _); [|done]. by rewrite (newURN_order o1 o2).
  - by rewrite (newURN_order o1 o2).
Qed.

Lemma range_tokens_order (os1 os2 : nat -> RangeOrder) a :
  forall i m, range_tokens os1 i m a = range_tokens os2 i m a.
Proof.
  induction a as [|v a IH]; intros i m; [done |].
  simpl. destruct (_ <? 1)%nat; [done |].
  destruct (at_index _ 0) as [b0| |]; simpl; [|done..].
  destruct (at_index _ 1) as [b1| |]; simpl; [|done..].
  rewrite (parseKeyVal_order (os1 i) (os2 i)).
  destruct (parseKeyVal _ _ _ _) as [m'| |]; simpl; [|done..].
  apply IH.
Qed.

Lemma NewMagnet_order (os1 os2 : nat -> RangeOrder) s :
  NewMagnet os1 s = NewMagnet os2 s.
Proof.
  unfold NewMagnet, parseMagnet. destruct (negb _); [done |].
  destruct (at_index _ 0) as [a0| |]; simpl; [|done..].
  destruct (negb _); [done |].
  destruct (at_index _ 1) as [a1| |]; simpl; [|done..].
  destruct (_ =? 0)%nat; [done |].
  by rewrite (range_tokens_order os1 os2).
Qed.

Lemma range_tokens_cons os i m v a k val rest :
  Split v "=" = k :: val :: rest ->
  range_tokens os i m (v :: a)
  = (m' ← parseKeyVal (os i) m k val; range_tokens os (S i) m' a).
Proof. intros Hs. simpl. by rewrite Hs. Qed.

Lemma range_tokens_app os a b :
  forall i m,
    range_tokens os i m (a ++ b)
    = (m' ← range_tokens os i m a; range_tokens os (i + length a) m' b).
Proof.
  induction a as [|v a IH]; intros i m.
  - simpl. by rewrite Nat.add_0_r.
  - cbn [app range_tokens]. destruct (_ <? 1)%nat; [done |].
    destruct (at_index _ 0) as [b0| |]; simpl; [|done..].
    destruct (at_index _ 1) as [b1| |]; simpl; [|done..].
    destruct (parseKeyVal _ _ _ _) as [m'| |]; simpl; [|done..].
    rewrite IH. by replace (S i + length a) with (i + S (length a)) by lia.
Qed.

(** Past the two outer splits. *)
Lemma NewMagnet_split os s a0 q :
  Split s ":?" = [a0; q] -> ToLower a0 = "magnet" ->
  NewMagnet os s = range_tokens os 0 Magnet_zero (Split q "&").
Proof.
  intros Hs Ha. unfold NewMagnet, parseMagnet.
  rewrite Hs. simpl. rewrite Ha. simpl.
  pose proof (Split_nonempty q "&").
  destruct (Split q "&"); [done |]. by destruct (range_tokens _ _ _ _).
Qed.

(** A magnet string with one token [k=v], where neither part holds a
    separator of the outer splits. *)
Lemma NewMagnet_single os k v :
  char_in "?" (k +:+ "=" +:+ v) = false ->
  char_in "&" (k +:+ "=" +:+ v) = false ->
  char_in "=" k = false -> char_in "=" v = false ->
  NewMagnet os ("magnet:?" +:+ k +:+ "=" +:+ v)
  = parseKeyVal (os 0) Magnet_zero k v.
Proof.
  intros Hq Ha Hk Hv.
  rewrite (NewMagnet_split os _ "magnet" (k +:+ "=" +:+ v)).
  - rewrite (Split_absent "&" "" _ Ha).
    rewrite (range_tokens_cons _ _ _ _ _ k v []).
    + by destruct (parseKeyVal _ _ _ _).
    + by rewrite (Split_app_sep "=" "" k v Hk), (Split_absent "=" "" v Hv).
  - change ("magnet:?" +:+ k +:+ "=" +:+ v)
      with ("magnet" +:+ ":?" +:+ k +:+ "=" +:+ v).
    rewrite (Split_app_sep ":" "?" "magnet") by done.
    f_equal. apply Split_None. by apply (Index_absent_any "?").
  - by rewrite ToLower_ASCII.
Qed.

(** What a pair does to [ExactLength]. *)
Lemma parseKeyVal_ExactLength o m k v m' :
  parseKeyVal o m k v = Ok m' ->
  ExactLength m'
  = if String.eqb (str_take 2 k) "xl"
    then match strconv.ParseInt v with Ok u => u | _ => ExactLength m end
    else ExactLength m.
Proof.
  destruct (newMagnetKey k) as [mk| |] eqn:Hk;
    [|unfold parseKeyVal; rewrite Hk; done..].
  rewrite (parseKeyVal_classified _ _ _ _ _ Hk).
  apply newMagnetKey_Ok in Hk as (_ & Hty & _).
  destruct (String.eqb_spec (str_take 2 k) "xl") as [Hx|Hx].
  - apply KeyTypeMap_xl in Hx. rewrite Hx in Hty. injection Hty as <-.
    destruct (strconv.ParseInt v); simpl; [|done..]. by intros [= <-].
  - destruct (KType mk) eqn:Ht;
      try (by apply KeyTypeMap_xl in Hty);
      intros Hm; try destruct (HasPrefix _ _);
      try (by destruct (url.Parse v); simplify_eq);
      try (by apply bind_Ok_inv in Hm as (x & _ & ->));
      by simplify_eq.
Qed.

Lemma range_tokens_ExactLength os toks :
  forall i m m',
    range_tokens os i m toks = Ok m' ->
    ExactLength m' = default (ExactLength m) (last (omap xl_value toks)).
Proof.
  induction toks as [|tok toks IH]; intros i m m'; [by intros [= <-] |].
  cbn [range_tokens omap list_omap]. unfold xl_value at 1.
  destruct (Split tok "=") as [|k [|v rest]]; [done | done |]. simpl.
  destruct (parseKeyVal (os i) m k v) as [m1| |] eqn:Hkv; simpl; [|done..].
  intros Hr. rewrite (IH _ _ _ Hr), (parseKeyVal_ExactLength _ _ _ _ _ Hkv).
  destruct (String.eqb _ _); [|done].
  destruct (strconv.ParseInt v); try done.
  rewrite last_cons. by destruct (last _).
Qed.

(** A run of [xl] tokens with numeric values sets the length to the last
    value. *)
Lemma range_tokens_xl os ns :
  forall vs i m,
    Forall2 (fun n v => strconv.ParseInt n = Ok v) ns vs ->
    range_tokens os i m ((fun n => "xl=" +:+ n) <$> ns)
    = Ok (from_option (set_ExactLength m) m (last vs)).
Proof.
  induction ns as [|n ns IH]; intros vs i m Hf.
  - by apply Forall2_nil_inv_l in Hf as ->.
  - apply Forall2_cons_inv_l in Hf as (v & vs' & Hn & Hf & ->).
    cbn [fmap list_fmap]. pose proof (ParseInt_Ok_decimal _ _ Hn) as Hd.
    rewrite (range_tokens_cons _ _ _ _ _ "xl" n []).
    + rewrite (parseKeyVal_classified _ _ _ _ _ newMagnetKey_xl).
      simpl. rewrite Hn. simpl. rewrite (IH vs' _ _ Hf), last_cons.
      by destruct (last vs').
    + change ("xl=" +:+ n) with ("xl" +:+ "=" +:+ n).
      rewrite (Split_app_sep "=" "" "xl" n) by done.
      f_equal. apply Split_absent. by apply is_decimal_char_in.
Qed.

End AssemblerFacts.

(** * The claims *)

Section Claims.

Context `{!strings.Unicode} `{!url.Parser}.

(** C1. For a magnet string with the single token [xt=urn:sha1:<base32>],
    where [<base32>] is a text over the base-32 alphabet that decodes to
    [data], parsing succeeds, and the Urn with the one SHA1 hash of bytes
    [data] is the only element of the manifest topics: [parseKeyVal]
    appends an exact topic to [ManifestTopics], and [ExactTopics], like
    every other field, keeps its zero value. *)
Theorem exact_topic_appended_to_manifest_topics os b data :
  in_alphabet b = true ->
  base32.DecodeString b = Ok data ->
  NewMagnet os ("magnet:?xt=urn:sha1:" +:+ b)
  = Ok {| AcceptableSources := []; DisplayNames := []; KeywordTopics := [];
          ManifestTopics :=
            [TopicURN {| Hashes := [{| HType := HashSHA1; Data := data |}] |}];
          TrackerAddresses := []; ExactLength := 0; ExactSources := [];
          ExactTopics := []; Suplements := None |}.
Proof.
  intros Hb Hd.
  pose proof (fun c H => in_alphabet_char_in c b H Hb) as Hc.
  change ("magnet:?xt=urn:sha1:" +:+ b)
    with ("magnet:?" +:+ "xt" +:+ "=" +:+ "urn:sha1:" +:+ b).
  rewrite NewMagnet_single.
  - rewrite (parseKeyVal_classified _ _ _ _ _ newMagnetKey_xt).
    simpl KType. cbv iota.
    change ("urn:sha1:" +:+ b) with ("urn:" +:+ "sha1" +:+ ":" +:+ b).
    rewrite newURN_scheme.
    + rewrite (proj1 (proj2 HashTypeMap_values)). simpl. by rewrite Hd.
    + set_solver.
    + apply (Index_absent "u" "rn:"). by apply Hc.
  - simpl. by apply Hc.
  - simpl. by apply Hc.
  - done.
  - simpl. by apply Hc.
Qed.

(** C2. No key with the supplement prefix [x.] is classified: for such a
    key [SplitAfterN(k, ".", 1)] returns [k] whole, a single piece, and
    [newMagnetKey] fails with [ErrInvalidMagnet] on the test [len(b) < 2].
    So do [parseKeyVal] and, for a magnet string with this single token,
    [NewMagnet]: nothing is appended to the supplement map. No key at all
    is classified as a supplement. *)
Theorem supplement_key_is_rejected tag :
  newMagnetKey ("x." +:+ tag) = Err ErrInvalidMagnet
  /\ (forall o m v,
        parseKeyVal o m ("x." +:+ tag) v = Err ErrInvalidMagnet)
  /\ (forall os v,
        char_in "?" (tag +:+ v) = false -> char_in "&" (tag +:+ v) = false ->
        char_in "=" (tag +:+ v) = false ->
        NewMagnet os ("magnet:?x." +:+ tag +:+ "=" +:+ v)
        = Err ErrInvalidMagnet)
  /\ (forall k mk, newMagnetKey k = Ok mk -> KType mk <> KeySuplement).
Proof.
  assert (forall o m v,
    parseKeyVal o m ("x." +:+ tag) v = Err ErrInvalidMagnet) as Hkv.
  { intros o m v. unfold parseKeyVal. by rewrite newMagnetKey_supplement. }
  split; [apply newMagnetKey_supplement |]. split; [done |]. split.
  - intros os v Hq Ha He. rewrite char_in_app in Hq, Ha, He.
    apply orb_false_elim in Hq as [Hq1 Hq2].
    apply orb_false_elim in Ha as [Ha1 Ha2].
    apply orb_false_elim in He as [He1 He2].
    change ("magnet:?x." +:+ tag +:+ "=" +:+ v)
      with ("magnet:?" +:+ ("x." +:+ tag) +:+ "=" +:+ v).
    rewrite NewMagnet_single; [apply Hkv | | | |done].
    + simpl. rewrite char_in_app. simpl. by rewrite Hq1, Hq2.
    + simpl. rewrite char_in_app. simpl. by rewrite Ha1, Ha2.
    + simpl. by rewrite He1.
  - intros k mk Hk. by apply newMagnetKey_Ok in Hk as (_ & _ & Hs & _).
Qed.

(** C3, as amended. A URN [urn:md5:<payload>] is parsed without error into
    a Urn that holds no hash, in every order of the [range] loop: the tag
    is found and the [switch] has no case for it. The one failure is that
    of the split, [ErrInvalidMagnet], when the payload holds a second
    [urn:]. *)
Theorem md5_urn_yields_empty_urn o payload :
  newURN o ("urn:md5:" +:+ payload)
  = match Index payload "urn:" with
    | None => Ok {| Hashes := [] |}
    | Some _ => Err ErrInvalidMagnet
    end.
Proof.
  change ("urn:md5:" +:+ payload) with ("urn:" +:+ "md5" +:+ ":" +:+ payload).
  destruct (Index payload "urn:") as [m|] eqn:Hp.
  - apply (newURN_scheme_twice o "md5" payload m); [set_solver | done].
  - rewrite newURN_scheme; [|set_solver | done].
    by rewrite (proj2 (proj2 (proj2 (proj2 (proj2 (proj2
                 (proj2 HashTypeMap_values))))))).
Qed.

(** C4. The split of the query on [&] never yields zero tokens, and
    [parseMagnet] reads [b[1]] of every token that it reaches, whether the
    token holds [=] or not: guarded by [len(b) < 1], the read panics with
    an index out of range at the first token without [=], when the tokens
    before it were parsed. *)
Theorem token_without_separator_panics os s a0 q pre tok post m :
  Split s ":?" = [a0; q] -> ToLower a0 = "magnet" ->
  Split q "&" = (pre ++ tok :: post)%list ->
  range_tokens os 0 Magnet_zero pre = Ok m ->
  Index tok "=" = None ->
  Split q "&" <> [] /\ NewMagnet os s = Panic (index_out_of_range 1 1).
Proof.
  intros Hs Ha Hq Hpre Htok. split; [apply Split_nonempty |].
  rewrite (NewMagnet_split _ _ _ _ Hs Ha), Hq, range_tokens_app, Hpre.
  simpl. by rewrite (Split_None _ _ Htok).
Qed.

(** C5, as amended. [newURN] fails with [ErrInvalidMagnet] whenever the
    split of the input on [urn:] yields a number of pieces other than two.
    When it yields two, the piece before [urn:] is not looked at: the
    outcome is that of [urn:] followed by the second piece. *)
Theorem urn_split_contract o v :
  (length (Split v "urn:") <> 2 -> newURN o v = Err ErrInvalidMagnet)
  /\ (forall pre urn,
        Split v "urn:" = [pre; urn] ->
        newURN o v = newURN o ("urn:" +:+ urn)).
Proof.
  split; [apply newURN_pieces | apply newURN_ignores_prefix].
Qed.

(** C6. For a BitPrint URN [urn:bitprint:<payload>] (one [urn:], that of
    its head): when the payload holds one [.] between two segments that
    both decode as base 32, the Urn holds two hashes, SHA1 from the first
    segment and then TigerTree from the second; a payload with no [.] or
    with more than one fails with [ErrInvalidMagnet]; a segment that does
    not decode fails with the error of the decoder. *)
Theorem bitprint_urn_two_hashes o payload :
  Index payload "urn:" = None ->
  (forall s1 s2 d1 d2,
      Split payload "." = [s1; s2] ->
      base32.DecodeString s1 = Ok d1 -> base32.DecodeString s2 = Ok d2 ->
      newURN o ("urn:bitprint:" +:+ payload)
      = Ok {| Hashes := [ {| HType := HashSHA1; Data := d1 |};
                          {| HType := HashTTH; Data := d2 |} ] |})
  /\ (Count payload "." <> 1 ->
      newURN o ("urn:bitprint:" +:+ payload) = Err ErrInvalidMagnet)
  /\ (forall s1 s2 e,
        Split payload "." = [s1; s2] ->
        base32.DecodeString s1 = Err e ->
        newURN o ("urn:bitprint:" +:+ payload) = Err e
        /\ e = base32_CorruptInputError)
  /\ (forall s1 s2 d1 e,
        Split payload "." = [s1; s2] ->
        base32.DecodeString s1 = Ok d1 ->
        base32.DecodeString s2 = Err e ->
        newURN o ("urn:bitprint:" +:+ payload) = Err e
        /\ e = base32_CorruptInputError).
Proof.
  intros Hp.
  assert (newURN o ("urn:bitprint:" +:+ payload)
          = switch_ht {| Hashes := [] |} (Some HashBitPrint) payload) as ->.
  { change ("urn:bitprint:" +:+ payload)
      with ("urn:" +:+ "bitprint" +:+ ":" +:+ payload).
    rewrite newURN_scheme; [|set_solver|done].
    by rewrite (proj1 (proj2 (proj2 HashTypeMap_values))). }
  unfold switch_ht. split; [|split; [|split]].
  - intros s1 s2 d1 d2 -> H1 H2. simpl. rewrite H1. simpl. by rewrite H2.
  - intros Hc. assert ("." <> "") as Hne by done.
    pose proof (Split_length payload "." Hne) as Hl.
    destruct (Nat.eqb_spec (length (Split payload ".")) 2); [lia | done].
  - intros s1 s2 e -> H1. simpl. rewrite H1.
    split; [done | by apply (DecodeString_error s1)].
  - intros s1 s2 d1 e -> H1 H2. simpl. rewrite H1. simpl. rewrite H2.
    split; [done | by apply (DecodeString_error s2)].
Qed.

(** C7, as amended. For a key that splits on [.] into two segments,
    classification succeeds only if [strconv.Atoi] accepts the second
    segment, a decimal integer with an optional sign, and the value, which
    may be negative, is stored as the index; it does succeed so when the
    two-byte prefix is in the table and is not the supplement prefix. A
    second segment that [Atoi] rejects fails with [ErrInvalidMagnet], and
    so does a key with more than two segments. *)
Theorem key_index_classification :
  (forall k c0 c1,
      Split k "." = [c0; c1] ->
      (forall mk, newMagnetKey k = Ok mk -> strconv.Atoi c1 = Ok (Indx mk))
      /\ (forall e, strconv.Atoi c1 = Err e ->
                    newMagnetKey k = Err ErrInvalidMagnet)
      /\ (forall ty v,
            2 <= len k -> KeyTypeMap !! str_take 2 k = Some ty ->
            ty <> KeySuplement -> strconv.Atoi c1 = Ok v ->
            newMagnetKey k = Ok {| KType := ty; Indx := v; Supl := "" |}))
  /\ (forall k, 2 < length (Split k ".") ->
                newMagnetKey k = Err ErrInvalidMagnet).
Proof.
  split.
  - intros k c0 c1 Hs. repeat split.
    + intros mk Hk. apply newMagnetKey_Ok in Hk as (_ & _ & _ & _ & Hi).
      by rewrite Hs in Hi.
    + intros e He. destruct (newMagnetKey k) as [mk|e'|p] eqn:Hk.
      * apply newMagnetKey_Ok in Hk as (_ & _ & _ & _ & Hi).
        rewrite Hs in Hi. congruence.
      * by rewrite (newMagnetKey_error _ _ Hk).
      * by apply newMagnetKey_no_panic in Hk.
    + intros ty v Hl Hty Hne Ha.
      by rewrite (newMagnetKey_plain _ _ Hl Hty Hne), Hs, Ha.
  - intros k Hl. destruct (newMagnetKey k) as [mk|e'|p] eqn:Hk.
    + apply newMagnetKey_Ok in Hk as (_ & _ & _ & _ & Hi).
      destruct (Split k ".") as [|c0 [|c1 [|c2 c]]]; simpl in Hl;
        try done; lia.
    + by rewrite (newMagnetKey_error _ _ Hk).
    + by apply newMagnetKey_no_panic in Hk.
Qed.

(** C8. In the result of every successful parse the exact length is the
    64-bit decimal value of the last [xl] token of the query, and zero when
    the query has none. A query of [xl] tokens with numeric values in range
    is parsed so, whatever their number. An [xl] value that is not numeric
    fails with the [*NumError] of [strconv.ParseInt], in [parseKeyVal] and,
    for a magnet string with this single token, in [NewMagnet]. *)
Theorem exact_length_last_wins :
  (forall os s m,
      NewMagnet os s = Ok m ->
      exists a0 q, Split s ":?" = [a0; q]
        /\ ExactLength m = default 0%Z (last (omap xl_value (Split q "&"))))
  /\ (forall os ns vs,
        ns <> [] ->
        Forall2 (fun n v => strconv.ParseInt n = Ok v) ns vs ->
        NewMagnet os ("magnet:?" +:+ Join ((fun n => "xl=" +:+ n) <$> ns) "&")
        = Ok (set_ExactLength Magnet_zero (default 0%Z (last vs))))
  /\ (forall o m k v mk,
        newMagnetKey k = Ok mk -> KType mk = KeyExactLength ->
        is_decimal v = false ->
        exists ne, parseKeyVal o m k v
                   = Err (strconv_NumError "ParseInt" v ne))
  /\ (forall os v,
        char_in "?" v = false -> char_in "&" v = false ->
        char_in "=" v = false -> is_decimal v = false ->
        exists ne, NewMagnet os ("magnet:?xl=" +:+ v)
                   = Err (strconv_NumError "ParseInt" v ne)).
Proof.
  split; [|split; [|split]].
  - intros os s m. unfold NewMagnet, parseMagnet.
    destruct (Split s ":?") as [|a0 [|q [|x a]]]; try done. simpl.
    destruct (negb _); [done |]. simpl. destruct (_ =? 0)%nat; [done |].
    destruct (range_tokens _ _ _ _) as [m'| |] eqn:Hr; simpl; [|done..].
    intros [= <-]. exists a0, q. split; [done |].
    by rewrite (range_tokens_ExactLength _ _ _ _ _ Hr).
  - intros os ns vs Hne Hf.
    assert (Forall (fun n => is_decimal n = true) ns) as Hd.
    { clear Hne. induction Hf; constructor;
        [by eapply ParseInt_Ok_decimal | done]. }
    assert (forall c, strconv.digit c = None ->
              c <> "+"%char -> c <> "-"%char -> char_in c "xl=" = false ->
              Forall (fun t => char_in c t = false)
                ((fun n => "xl=" +:+ n) <$> ns)) as Hc.
    { intros c H1 H2 H3 H4. apply Forall_fmap. eapply Forall_impl; [exact Hd |].
      intros n Hn. unfold compose. rewrite char_in_app, H4.
      by apply is_decimal_char_in. }
    rewrite (NewMagnet_split os _ "magnet"
               (Join ((fun n => "xl=" +:+ n) <$> ns) "&")).
    + rewrite (Split_Join "&"); [| by destruct ns | by apply Hc].
      rewrite (range_tokens_xl _ _ _ _ _ Hf).
      assert (length ns = length vs) as Hl by by eapply Forall2_length.
      destruct vs as [|v vs]; [by destruct ns |].
      rewrite last_cons. by destruct (last vs).
    + change ("magnet:?" +:+ ?x) with ("magnet" +:+ ":?" +:+ x).
      rewrite (Split_app_sep ":" "?" "magnet") by done.
      f_equal. apply Split_None. apply (Index_absent_any "?"); [done |].
      apply char_in_Join; [done |]. by apply Hc.
    + by rewrite ToLower_ASCII.
  - intros o m k v mk Hk Ht Hv.
    apply ParseInt_not_decimal in Hv as [ne Hv]. exists ne.
    by rewrite (parseKeyVal_classified _ _ _ _ _ Hk), Ht, Hv.
  - intros os v Hq Ha He Hv.
    apply ParseInt_not_decimal in Hv as [ne Hv]. exists ne.
    change ("magnet:?xl=" +:+ v) with ("magnet:?" +:+ "xl" +:+ "=" +:+ v).
    rewrite NewMagnet_single; try done.
    by rewrite (parseKeyVal_classified _ _ _ _ _ newMagnetKey_xl), Hv.
Qed.

(** C9. Parsing is deterministic. The one choice that the language leaves
    open, the order in which the [range] loop of [newURN] visits the scheme
    tags, has no effect: whatever orders the loop takes, from token to
    token and from one parse to the next, [NewMagnet] has the same outcome
    on the same string, the same result, error or panic. The reason is that
    no string starts with two distinct scheme tags. *)
Theorem parsing_is_deterministic :
  (forall (os1 os2 : nat -> RangeOrder) s, NewMagnet os1 s = NewMagnet os2 s)
  /\ (forall (o : RangeOrder) d1 d2 x,
        d1 ∈ range_keys o -> d2 ∈ range_keys o ->
        HasPrefix x d1 = true -> HasPrefix x d2 = true -> d1 = d2).
Proof.
  split; [apply NewMagnet_order |].
  intros o d1 d2 x H1%(range_order_elem o) H2%(range_order_elem o).
  by apply tag_unique.
Qed.

(** C10. For a URN whose text after [urn:] is a scheme tag and nothing
    else, the slice [urn[len(d)+1:]] starts one byte past the end of the
    string: [newURN] panics with slice bounds out of range, and so does
    [NewMagnet] on a magnet string whose token is [xt=urn:<tag>]. *)
Theorem bare_scheme_tag_panics d :
  d ∈ source_keys ->
  (forall o,
      newURN o ("urn:" +:+ d)
      = Panic (slice_bounds_out_of_range (len d + 1) (len d)))
  /\ (forall os,
        NewMagnet os ("magnet:?xt=urn:" +:+ d)
        = Panic (slice_bounds_out_of_range (len d + 1) (len d))).
Proof.
  intros Hd.
  assert (Split ("urn:" +:+ d) "urn:" = [""; d] /\ isASCII d = true
          /\ HasPrefix (ToLowerASCII d) d = true
          /\ char_in "?" d = false /\ char_in "&" d = false
          /\ char_in "=" d = false) as (Hs & Ha & Hl & Hq & Hm & He).
  { unfold source_keys in Hd. set_unfold in Hd.
    destruct Hd as [->|[->|[->|[->|[->|[->|[->|[->|[]]]]]]]]]; by vm_compute. }
  assert (forall o, newURN o ("urn:" +:+ d)
            = Panic (slice_bounds_out_of_range (len d + 1) (len d))) as Hu.
  { intros o. rewrite (newURN_tag o _ _ _ d Hs Hd).
    - unfold slice_from.
      destruct (Nat.leb_spec (len d + 1) (len d)); [lia | done].
    - by rewrite ToLower_ASCII. }
  split; [done |]. intros os.
  change ("magnet:?xt=urn:" +:+ d)
    with ("magnet:?" +:+ "xt" +:+ "=" +:+ "urn:" +:+ d).
  rewrite NewMagnet_single; try done.
  rewrite (parseKeyVal_classified _ _ _ _ _ newMagnetKey_xt).
  simpl KType. cbv iota. by rewrite Hu.
Qed.

End Claims.

(** * Closed instances

    The theorems at concrete inputs, for the ASCII rendering of
    [strings.ToLower] and the keys in the order of the source text. *)

(** C1 at the first test magnet of magnet_test.go. *)
Lemma exact_topic_appended_to_manifest_topics_witness :
  NewMagnet (fun _ => source_order)
    "magnet:?xt=urn:sha1:YNCKHTQCWBTRNJIV4WNAE52SJUQCZO5C"
  = Ok {| AcceptableSources := []; DisplayNames := []; KeywordTopics := [];
          ManifestTopics :=
            [TopicURN {| Hashes := [{| HType := HashSHA1; Data :=
               ["195"; "D"; "163"; "206"; "002"; "176"; "g"; "022"; "165";
                "021"; "229"; "154"; "002"; "w"; "R"; "M"; " "; ","; "187";
                "162"]%byte |}] |}];
          TrackerAddresses := []; ExactLength := 0; ExactSources := [];
          ExactTopics := []; Suplements := None |}.
Proof.
  apply (exact_topic_appended_to_manifest_topics (fun _ => source_order)
           "YNCKHTQCWBTRNJIV4WNAE52SJUQCZO5C"); vm_compute; reflexivity.
Defined.

(** C2 at [magnet:?x.foo=bar]. *)
Lemma supplement_key_is_rejected_witness :
  NewMagnet (fun _ => source_order) "magnet:?x.foo=bar" = Err ErrInvalidMagnet.
Proof.
  apply (proj1 (proj2 (proj2 (supplement_key_is_rejected "foo")))
           (fun _ => source_order) "bar"); vm_compute; reflexivity.
Defined.

(** C3: the URN of the MD5 digest of the empty text is parsed without
    error, into a Urn without a hash. *)
Lemma md5_urn_succeeds_without_hash :
  newURN source_order "urn:md5:d41d8cd98f00b204e9800998ecf8427e"
  = Ok {| Hashes := [] |}.
Proof. vm_compute. reflexivity. Qed.

(** C4 at the magnet string with an empty query. *)
Lemma empty_query_panics :
  Split "" "&" <> []
  /\ NewMagnet (fun _ => source_order) "magnet:?"
     = Panic (index_out_of_range 1 1).
Proof.
  apply (token_without_separator_panics (fun _ => source_order)
           "magnet:?" "magnet" "" [] "" [] Magnet_zero); reflexivity.
Defined.

(** C5: text before [urn:] does not make [newURN] fail. *)
Lemma text_before_urn_accepted :
  newURN source_order "XXurn:sha1:YNCKHTQCWBTRNJIV4WNAE52SJUQCZO5C"
  = Ok {| Hashes := [{| HType := HashSHA1; Data :=
            ["195"; "D"; "163"; "206"; "002"; "176"; "g"; "022"; "165";
             "021"; "229"; "154"; "002"; "w"; "R"; "M"; " "; ","; "187";
             "162"]%byte |}] |}.
Proof. vm_compute. reflexivity. Qed.

Lemma urn_split_contract_witness :
  newURN source_order "XXurn:sha1:YNCKHTQCWBTRNJIV4WNAE52SJUQCZO5C"
  = newURN source_order "urn:sha1:YNCKHTQCWBTRNJIV4WNAE52SJUQCZO5C".
Proof.
  apply (proj2 (urn_split_contract source_order
                  "XXurn:sha1:YNCKHTQCWBTRNJIV4WNAE52SJUQCZO5C") "XX").
  vm_compute. reflexivity.
Defined.

(** C6 at a BitPrint URN of two padded segments. *)
Lemma bitprint_urn_two_hashes_witness :
  newURN source_order "urn:bitprint:MY======.MZXW6YQ="
  = Ok {| Hashes := [ {| HType := HashSHA1; Data := ["f"]%byte |};
                      {| HType := HashTTH;
                         Data := ["f"; "o"; "o"; "b"]%byte |} ] |}.
Proof.
  apply (proj1 (bitprint_urn_two_hashes source_order "MY======.MZXW6YQ="
                  eq_refl) "MY======" "MZXW6YQ="); vm_compute; reflexivity.
Defined.

(** C7: a negative index is accepted and stored. *)
Lemma negative_index_accepted :
  newMagnetKey "xt.-1" = Ok {| KType := KeyExactTopic; Indx := -1; Supl := "" |}.
Proof. vm_compute. reflexivity. Qed.

Lemma key_index_classification_witness :
  newMagnetKey "xt.2" = Ok {| KType := KeyExactTopic; Indx := 2; Supl := "" |}.
Proof.
  apply (proj2 (proj2 (proj1 key_index_classification "xt.2" "xt" "2"
                         eq_refl)) KeyExactTopic 2%Z).
  - simpl. lia.
  - vm_compute. reflexivity.
  - discriminate.
  - vm_compute. reflexivity.
Defined.

(** C8 at two [xl] tokens. *)
Lemma exact_length_last_wins_witness :
  NewMagnet (fun _ => source_order) "magnet:?xl=10&xl=20"
  = Ok {| AcceptableSources := []; DisplayNames := []; KeywordTopics := [];
          ManifestTopics := []; TrackerAddresses := []; ExactLength := 20;
          ExactSources := []; ExactTopics := []; Suplements := None |}.
Proof.
  apply (proj1 (proj2 exact_length_last_wins) (fun _ => source_order)
           ["10"; "20"] [10%Z; 20%Z]).
  - discriminate.
  - repeat constructor.
Defined.

(** C9 at the last test magnet of magnet_test.go, parsed with the keys
    visited first to last and last to first. *)
Lemma parsing_is_deterministic_witness :
  NewMagnet (fun _ => source_order)
    "magnet:?xt=urn:btih:9480ac31b43e6219f2109c7877e48aeb47dfc7ac&dn=Of+Montreal+-+Lousy+with+Sylvianbriar+%282013%29+%5BFLAC%5D&tr=udp%3A%2F%2Ftracker.openbittorrent.com%3A80&tr=udp%3A%2F%2Ftracker.publicbt.com%3A80&tr=udp%3A%2F%2Ftracker.istole.it%3A6969&tr=udp%3A%2F%2Ftracker.ccc.de%3A80&tr=udp%3A%2F%2Fopen.demonii.com%3A1337"
  = NewMagnet (fun _ => reverse_order)
    "magnet:?xt=urn:btih:9480ac31b43e6219f2109c7877e48aeb47dfc7ac&dn=Of+Montreal+-+Lousy+with+Sylvianbriar+%282013%29+%5BFLAC%5D&tr=udp%3A%2F%2Ftracker.openbittorrent.com%3A80&tr=udp%3A%2F%2Ftracker.publicbt.com%3A80&tr=udp%3A%2F%2Ftracker.istole.it%3A6969&tr=udp%3A%2F%2Ftracker.ccc.de%3A80&tr=udp%3A%2F%2Fopen.demonii.com%3A1337".
Proof. apply (proj1 parsing_is_deterministic). Defined.

(** C10 at [urn:sha1]. *)
Lemma bare_scheme_tag_panics_witness :
  newURN source_order "urn:sha1" = Panic (slice_bounds_out_of_range 5 4)
  /\ NewMagnet (fun _ => source_order) "magnet:?xt=urn:sha1"
     = Panic (slice_bounds_out_of_range 5 4).
Proof.
  assert ("sha1" ∈ source_keys) as Hd.
  { apply (bool_decide_unpack _). vm_compute. exact I. }
  split.
  - apply (proj1 (bare_scheme_tag_panics "sha1" Hd) source_order).
  - apply (proj2 (bare_scheme_tag_panics "sha1" Hd) (fun _ => source_order)).
Defined.

(** * Further properties *)

(** ** The effect of a pair on the record *)

Section PairFacts.

Context `{!strings.Unicode} `{!url.Parser}.

(** What a pair that is parsed without error does to the record. *)
Lemma parseKeyVal_Ok_inv o m k v m' :
  parseKeyVal o m k v = Ok m' ->
  match key_type k with
  | Some KeyAcceptableSource =>
      exists u, url.Parse v = Some u
        /\ m' = set_AcceptableSources m (AcceptableSources m ++ [u])
  | Some KeyDisplayName =>
      exists u, url.QueryUnescape v = Ok u
        /\ m' = set_DisplayNames m (DisplayNames m ++ [u])
  | Some KeyKeywordTopic =>
      exists u, url.QueryUnescape v = Ok u
        /\ m' = set_KeywordTopics m (KeywordTopics m ++ [u])
  | Some KeyManifestTopic =>
      if HasPrefix (ToLower v) "urn" then
        exists u, newURN o v = Ok u
          /\ m' = set_ManifestTopics m (ManifestTopics m ++ [TopicURN u])
      else
        exists u, url.QueryUnescape v = Ok u
          /\ m' = set_ManifestTopics m (ManifestTopics m ++ [TopicString u])
  | Some KeyTrackerAddress =>
      exists u, url.QueryUnescape v = Ok u
        /\ m' = set_TrackerAddresses m (TrackerAddresses m ++ [u])
  | Some KeyExactLength =>
      exists u, strconv.ParseInt v = Ok u /\ m' = set_ExactLength m u
  | Some KeyExactSource => m' = set_ExactSources m (ExactSources m ++ [v])
  | Some KeyExactTopic =>
      exists u, newURN o v = Ok u
        /\ m' = set_ManifestTopics m (ManifestTopics m ++ [TopicURN u])
  | _ => False
  end.
Proof.
  destruct (newMagnetKey k) as [mk| |] eqn:Hk;
    [|unfold parseKeyVal; rewrite Hk; done..].
  rewrite (parseKeyVal_classified _ _ _ _ _ Hk).
  apply newMagnetKey_Ok in Hk as (_ & Hty & Hs & _).
  unfold key_type. rewrite Hty.
  destruct (KType mk); try done; intros Hm;
    try destruct (HasPrefix _ _);
    try (by apply bind_Ok_inv in Hm as (x & ? & ->); eauto);
    try (by destruct (url.Parse v); simplify_eq; eauto);
    by simplify_eq.
Qed.

Lemma step_AcceptableSources o m k v m' :
  parseKeyVal o m k v = Ok m' ->
  AcceptableSources m'
  = (AcceptableSources m ++ option_list (source_value k v))%list.
Proof.
  intros Hm%parseKeyVal_Ok_inv. unfold source_value.
  destruct (key_type k) as [[]|]; try done;
    try destruct (HasPrefix _ _);
    try destruct Hm as (u & Hu & ->); try subst m';
    simpl; rewrite ?app_nil_r; try done.
  by rewrite Hu.
Qed.

Lemma step_text (ty : KeyType) (F : Magnet -> list string) o m k v m' :
  (ty, F) ∈ [(KeyDisplayName, DisplayNames); (KeyKeywordTopic, KeywordTopics);
             (KeyTrackerAddress, TrackerAddresses)] ->
  parseKeyVal o m k v = Ok m' ->
  F m' = (F m ++ option_list (text_value ty k v))%list.
Proof.
  intros Hin Hm%parseKeyVal_Ok_inv. unfold text_value.
  set_unfold in Hin.
  destruct Hin as [[= -> ->]|[[= -> ->]|[[= -> ->]|[]]]];
    (destruct (key_type k) as [[]|]; try done;
     try destruct (HasPrefix _ _);
     try destruct Hm as (u & Hu & ->); try subst m';
     simpl; rewrite ?app_nil_r; try done;
     by rewrite Hu).
Qed.

Lemma step_ExactSources o m k v m' :
  parseKeyVal o m k v = Ok m' ->
  ExactSources m'
  = (ExactSources m ++ option_list (raw_value KeyExactSource k v))%list.
Proof.
  intros Hm%parseKeyVal_Ok_inv. unfold raw_value.
  destruct (key_type k) as [[]|]; try done;
    try destruct (HasPrefix _ _);
    try destruct Hm as (u & Hu & ->); try subst m';
    simpl; rewrite ?app_nil_r; done.
Qed.

Lemma step_ManifestTopics o m k v m' :
  parseKeyVal o m k v = Ok m' ->
  ManifestTopics m' = (ManifestTopics m ++ option_list (topic_value k v))%list.
Proof.
  intros Hm%parseKeyVal_Ok_inv. unfold topic_value.
  destruct (key_type k) as [[]|]; try done;
    try destruct (HasPrefix _ _);
    try destruct Hm as (u & Hu & ->); try subst m';
    simpl; rewrite ?app_nil_r; try done;
    try rewrite (newURN_order source_order o); by rewrite Hu.
Qed.

Lemma step_unused o m k v m' :
  parseKeyVal o m k v = Ok m' ->
  ExactTopics m' = ExactTopics m /\ Suplements m' = Suplements m.
Proof.
  intros Hm%parseKeyVal_Ok_inv.
  destruct (key_type k) as [[]|]; try done;
    try destruct (HasPrefix _ _);
    try destruct Hm as (u & Hu & ->); by try subst m'.
Qed.

(** A field to which every pair appends what [g] gives for it holds, after
    the loop, what it held before and the values of the tokens in their
    order. *)
Lemma range_tokens_field {A} (F : Magnet -> list A)
    (g : string -> string -> option A) os :
  (forall o m k v m',
      parseKeyVal o m k v = Ok m' ->
      F m' = (F m ++ option_list (g k v))%list) ->
  forall toks i m m',
    range_tokens os i m toks = Ok m' ->
    F m' = (F m ++ of_tokens g toks)%list.
Proof.
  intros Hstep. induction toks as [|tok toks IH]; intros i m m'.
  - intros [= <-]. by rewrite app_nil_r.
  - cbn [range_tokens]. unfold of_tokens. cbn [omap list_omap].
    destruct (Split tok "=") as [|k [|v rest]]; [done | done |]. simpl.
    destruct (parseKeyVal (os i) m k v) as [m1| |] eqn:Hkv; simpl; [|done..].
    intros Hr. rewrite (IH _ _ _ Hr), (Hstep _ _ _ _ _ Hkv), <- app_assoc.
    f_equal. by destruct (g k v).
Qed.

(** The result of a successful parse, seen from [NewMagnet]. *)
Lemma NewMagnet_Ok_inv os s m :
  NewMagnet os s = Ok m ->
  exists a0 q, Split s ":?" = [a0; q] /\ ToLower a0 = "magnet"
    /\ range_tokens os 0 Magnet_zero (Split q "&") = Ok m.
Proof.
  unfold NewMagnet, parseMagnet.
  destruct (Split s ":?") as [|a0 [|q [|x a]]]; try done. simpl.
  destruct (String.eqb_spec (ToLower a0) "magnet") as [Ha|]; [|done]. simpl.
  destruct (_ =? 0)%nat; [done |].
  destruct (range_tokens _ _ _ _) as [m'| |] eqn:Hr; simpl; [|done..].
  intros [= <-]. eauto.
Qed.

End PairFacts.

Section Fields.

Context `{!strings.Unicode} `{!url.Parser}.

Lemma NewMagnet_Ok_tokens os s m :
  NewMagnet os s = Ok m ->
  range_tokens os 0 Magnet_zero (query_tokens s) = Ok m.
Proof.
  intros (a0 & q & Hs & _ & Hr)%NewMagnet_Ok_inv.
  unfold query_tokens. by rewrite Hs.
Qed.

(** X1. When [NewMagnet] succeeds, [DisplayNames], [KeywordTopics] and
    [TrackerAddresses] hold the percent-decoded values of the [dn], [kt]
    and [tr] tokens of the query, one for each token and in the order of
    the tokens: nothing is dropped, merged or reordered. A token counts
    for the type that the table gives to the first two bytes of its key,
    whatever follows them. *)
Theorem text_fields_in_token_order os s m :
  NewMagnet os s = Ok m ->
  DisplayNames m = of_tokens (text_value KeyDisplayName) (query_tokens s)
  /\ KeywordTopics m = of_tokens (text_value KeyKeywordTopic) (query_tokens s)
  /\ TrackerAddresses m
     = of_tokens (text_value KeyTrackerAddress) (query_tokens s).
Proof.
  intros Hr%NewMagnet_Ok_tokens. repeat split.
  - apply (range_tokens_field DisplayNames (text_value KeyDisplayName) os)
      in Hr; [done |].
    intros. eapply (step_text KeyDisplayName DisplayNames); [set_solver | done].
  - apply (range_tokens_field KeywordTopics (text_value KeyKeywordTopic) os)
      in Hr; [done |].
    intros. eapply (step_text KeyKeywordTopic KeywordTopics); [set_solver | done].
  - apply (range_tokens_field TrackerAddresses (text_value KeyTrackerAddress) os)
      in Hr; [done |].
    intros. eapply (step_text KeyTrackerAddress TrackerAddresses);
      [set_solver | done].
Qed.

(** X2. When [NewMagnet] succeeds, [ExactSources] holds the values of the
    [xs] tokens as they are written, in the order of the tokens: an [xs]
    value is not percent-decoded. *)
Theorem exact_sources_are_raw os s m :
  NewMagnet os s = Ok m ->
  ExactSources m = of_tokens (raw_value KeyExactSource) (query_tokens s).
Proof.
  intros Hr%NewMagnet_Ok_tokens.
  apply (range_tokens_field ExactSources (raw_value KeyExactSource) os) in Hr;
    [done |].
  intros. by eapply step_ExactSources.
Qed.

(** X3. When [NewMagnet] succeeds, [ManifestTopics] holds one element for
    each [xt] token and each [mt] token, interleaved in the order of the
    tokens: the URN of an [xt] value; for an [mt] value the URN when its
    lowered text starts with [urn], and the percent-decoded text
    otherwise. The order of the [range] loops plays no part. *)
Theorem manifest_topics_in_token_order os s m :
  NewMagnet os s = Ok m ->
  ManifestTopics m = of_tokens topic_value (query_tokens s).
Proof.
  intros Hr%NewMagnet_Ok_tokens.
  apply (range_tokens_field ManifestTopics topic_value os) in Hr; [done |].
  intros. by eapply step_ManifestTopics.
Qed.

(** X4. When [NewMagnet] succeeds, [AcceptableSources] holds the URLs that
    [url.Parse] gives for the values of the [as] tokens, in the order of
    the tokens, for every behaviour of [url.Parse]. *)
Theorem acceptable_sources_in_token_order os s m :
  NewMagnet os s = Ok m ->
  AcceptableSources m = of_tokens source_value (query_tokens s).
Proof.
  intros Hr%NewMagnet_Ok_tokens.
  apply (range_tokens_field AcceptableSources source_value os) in Hr; [done |].
  intros. by eapply step_AcceptableSources.
Qed.

Lemma range_tokens_unused os toks :
  forall i m m',
    range_tokens os i m toks = Ok m' ->
    ExactTopics m' = ExactTopics m /\ Suplements m' = Suplements m.
Proof.
  induction toks as [|tok toks IH]; intros i m m'; [by intros [= <-] |].
  cbn [range_tokens].
  destruct (Split tok "=") as [|k [|v rest]]; [done | done |]. simpl.
  destruct (parseKeyVal (os i) m k v) as [m1| |] eqn:Hkv; simpl; [|done..].
  intros [-> ->]%IH. by apply step_unused in Hkv.
Qed.

(** X5. No input fills [ExactTopics] or allocates [Suplements]: in every
    Magnet that [NewMagnet] returns the first is empty and the second is
    the nil map. *)
Theorem exact_topics_and_supplements_stay_empty os s m :
  NewMagnet os s = Ok m -> ExactTopics m = [] /\ Suplements m = None.
Proof.
  intros Hr%NewMagnet_Ok_tokens. by apply range_tokens_unused in Hr.
Qed.

End Fields.

(** ** The outer splits *)

Lemma ToLowerASCII_char_in c a :
  char_in c a = true -> char_in (lower c) (ToLowerASCII a) = true.
Proof.
  induction a as [|c' a IH]; simpl; [done |].
  intros [Hc|Ha]%orb_prop.
  - apply Ascii.eqb_eq in Hc as <-. by rewrite Ascii.eqb_refl.
  - rewrite (IH Ha). apply orb_true_r.
Qed.

Lemma Split_token k v :
  char_in "=" k = false -> char_in "=" v = false ->
  Split (k +:+ "=" +:+ v) "=" = [k; v].
Proof.
  intros Hk Hv.
  by rewrite (Split_app_sep "=" "" k v Hk), (Split_absent "=" "" v Hv).
Qed.

Section Splits.

Context `{!strings.Unicode} `{!url.Parser}.

(** Past the check of the scheme, for every spelling of it. *)
Lemma NewMagnet_scheme os a0 q :
  char_in ":" a0 = false -> Index q ":?" = None -> ToLower a0 = "magnet" ->
  NewMagnet os (a0 +:+ ":?" +:+ q)
  = range_tokens os 0 Magnet_zero (Split q "&").
Proof.
  intros Ha Hq Hl. apply (NewMagnet_split os _ a0 q); [|done].
  by rewrite (Split_app_sep ":" "?" a0 q Ha), (Split_None _ _ Hq).
Qed.

Lemma range_tokens_pairs os kvs :
  Forall (fun kv => char_in "=" kv.1 = false /\ char_in "=" kv.2 = false) kvs ->
  forall i m,
    range_tokens os i m (token <$> kvs) = parse_pairs os i m kvs.
Proof.
  induction 1 as [|[k v] kvs [Hk Hv] _ IH]; intros i m; [done |].
  cbn [fmap list_fmap parse_pairs]. unfold token at 1. cbn [fst snd].
  rewrite (range_tokens_cons _ _ _ _ _ k v []) by by apply Split_token.
  destruct (parseKeyVal _ _ _ _); simpl; [apply IH | done..].
Qed.

(** X6. [NewMagnet] on [magnet:?] followed by pairs [k=v] joined with [&]
    is [parseKeyVal] run over the pairs from left to right, each on the
    Magnet that the pairs before it left, when no key or value holds [=]
    or [&] and the query holds no [:?]. *)
Theorem NewMagnet_of_pairs os kvs :
  kvs <> [] ->
  Forall (fun kv => char_in "=" kv.1 = false /\ char_in "=" kv.2 = false) kvs ->
  Forall (fun kv => char_in "&" (token kv) = false) kvs ->
  Index (Join (token <$> kvs) "&") ":?" = None ->
  NewMagnet os ("magnet:?" +:+ Join (token <$> kvs) "&")
  = parse_pairs os 0 Magnet_zero kvs.
Proof.
  intros Hne He Ha Hq.
  change ("magnet:?" +:+ ?q) with ("magnet" +:+ ":?" +:+ q).
  rewrite NewMagnet_scheme; [| done | done | by rewrite ToLower_ASCII].
  rewrite (Split_Join "&"); [| by destruct kvs | by apply Forall_fmap].
  by apply range_tokens_pairs.
Qed.

(** A magnet string with one token [k=v=rest]: what follows the second
    [=] is not looked at. *)
Lemma NewMagnet_single_cut os k v rest :
  char_in "=" k = false -> char_in "=" v = false ->
  char_in "&" (k +:+ v +:+ rest) = false ->
  char_in "?" (k +:+ v +:+ rest) = false ->
  NewMagnet os ("magnet:?" +:+ k +:+ "=" +:+ v +:+ "=" +:+ rest)
  = parseKeyVal (os 0) Magnet_zero k v.
Proof.
  intros Hk Hv Ha Hq.
  rewrite !char_in_app in Ha, Hq.
  apply orb_false_elim in Ha as [Ha1 [Ha2 Ha3]%orb_false_elim].
  apply orb_false_elim in Hq as [Hq1 [Hq2 Hq3]%orb_false_elim].
  change ("magnet:?" +:+ ?q) with ("magnet" +:+ ":?" +:+ q).
  rewrite NewMagnet_scheme; [| done | | by rewrite ToLower_ASCII].
  - rewrite (Split_absent "&" "");
      [| by rewrite !char_in_app, Ha1, Ha2, Ha3].
    rewrite (range_tokens_cons _ _ _ _ _ k v (Split rest "=")).
    + by destruct (parseKeyVal _ _ _ _).
    + by rewrite (Split_app_sep "=" "" k _ Hk), (Split_app_sep "=" "" v _ Hv).
  - apply (Index_absent_any "?"); [done |].
    by rewrite !char_in_app, Hq1, Hq2, Hq3.
Qed.

(** X7. Only the first two pieces of a token count: what follows a second
    [=] is ignored, so that [k=v=rest] parses as [k=v]. *)
Theorem value_cut_at_second_separator os k v rest :
  char_in "=" k = false -> char_in "=" v = false ->
  char_in "&" (k +:+ v +:+ rest) = false ->
  char_in "?" (k +:+ v +:+ rest) = false ->
  NewMagnet os ("magnet:?" +:+ k +:+ "=" +:+ v +:+ "=" +:+ rest)
  = NewMagnet os ("magnet:?" +:+ k +:+ "=" +:+ v).
Proof.
  intros Hk Hv Ha Hq.
  rewrite NewMagnet_single_cut by done.
  rewrite !char_in_app in Ha, Hq.
  apply orb_false_elim in Ha as [Ha1 [Ha2 _]%orb_false_elim].
  apply orb_false_elim in Hq as [Hq1 [Hq2 _]%orb_false_elim].
  rewrite NewMagnet_single; [done | | | done | done].
  - by rewrite !char_in_app, Hq1, Hq2.
  - by rewrite !char_in_app, Ha1, Ha2.
Qed.

(** X8. A failure is final: when [NewMagnet] fails or panics on a query,
    it fails or panics in the same way on that query followed by any
    further tokens. The tokens after the failing one are never
    examined. *)
Theorem failure_is_final os toks more r :
  toks <> [] ->
  Forall (fun t => char_in "&" t = false /\ char_in "?" t = false)
    (toks ++ more)%list ->
  NewMagnet os ("magnet:?" +:+ Join toks "&") = r ->
  result_value r = None ->
  NewMagnet os ("magnet:?" +:+ Join (toks ++ more)%list "&") = r.
Proof.
  intros Hne Hf <- Hr.
  assert (forall l, l <> [] ->
            Forall (fun t => char_in "&" t = false /\ char_in "?" t = false) l ->
            NewMagnet os ("magnet:?" +:+ Join l "&")
            = range_tokens os 0 Magnet_zero l) as Hl.
  { intros l Hl Hfl.
    change ("magnet:?" +:+ ?q) with ("magnet" +:+ ":?" +:+ q).
    rewrite NewMagnet_scheme; [| done | | by rewrite ToLower_ASCII].
    - rewrite (Split_Join "&"); [done | done |].
      eapply Forall_impl; [exact Hfl | by intros t [? _]].
    - apply (Index_absent_any "?"); [done |].
      apply char_in_Join; [done |].
      eapply Forall_impl; [exact Hfl | by intros t [_ ?]]. }
  assert (toks ++ more <> [])%list as Hne' by by destruct toks.
  apply Forall_app in Hf as Hf'. destruct Hf' as [Hft _].
  rewrite (Hl _ Hne Hft) in Hr |- *. rewrite (Hl _ Hne' Hf).
  rewrite range_tokens_app.
  by destruct (range_tokens os 0 Magnet_zero toks).
Qed.

(** X9. The scheme is checked before any token: a string without exactly
    one [:?] is rejected with [ErrInvalidMagnet], and so is a string whose
    text before the [:?] is not [magnet] in some spelling of upper and
    lower case, whatever the query holds. *)
Theorem scheme_is_checked os :
  (forall s, Count s ":?" <> 1 -> NewMagnet os s = Err ErrInvalidMagnet)
  /\ (forall a0 q,
        isASCII a0 = true -> char_in ":" a0 = false ->
        ToLowerASCII a0 <> "magnet" ->
        NewMagnet os (a0 +:+ ":?" +:+ q) = Err ErrInvalidMagnet).
Proof.
  split.
  - intros s Hc. unfold NewMagnet, parseMagnet.
    assert (":?" <> "") as Hne by done.
    rewrite (Split_length s ":?" Hne).
    destruct (Nat.eqb_spec (S (Count s ":?")) 2); [lia | done].
  - intros a0 q Ha Hc Hl. unfold NewMagnet, parseMagnet.
    rewrite (Split_app_sep ":" "?" a0 q Hc).
    destruct (Split q ":?") as [|q' [|x r]]; try done. simpl.
    rewrite (ToLower_ASCII _ Ha).
    by destruct (String.eqb_spec (ToLowerASCII a0) "magnet").
Qed.

(** X10. The scheme is matched without regard to case: a string whose
    text before the [:?] is any spelling of [magnet] parses like the one
    that starts with [magnet:?]. *)
Theorem scheme_is_case_insensitive os a0 q :
  isASCII a0 = true -> ToLowerASCII a0 = "magnet" ->
  NewMagnet os (a0 +:+ ":?" +:+ q) = NewMagnet os ("magnet:?" +:+ q).
Proof.
  intros Ha Hl.
  assert (char_in ":" a0 = false) as Hc.
  { destruct (char_in ":" a0) eqn:E; [|done].
    apply ToLowerASCII_char_in in E. by rewrite Hl in E. }
  change ("magnet:?" +:+ q) with ("magnet" +:+ ":?" +:+ q).
  unfold NewMagnet, parseMagnet.
  rewrite (Split_app_sep ":" "?" a0 q Hc).
  rewrite (Split_app_sep ":" "?" "magnet" q) by done.
  destruct (Split q ":?") as [|q' [|x r]]; try done. simpl.
  by rewrite !ToLower_ASCII, Hl.
Qed.

End Splits.

(** ** The decoders *)

Lemma string_pair_ind (P : string -> Prop) :
  P "" -> (forall c, P (String c "")) ->
  (forall a b s, P s -> P (String a (String b s))) ->
  forall s, P s.
Proof.
  intros H0 H1 H2.
  assert (forall s, P s /\ forall c, P (String c s)) as H.
  { induction s as [|c s [IH1 IH2]]; [by split |]. split; [done |].
    intros a. by apply H2. }
  intros s. apply H.
Qed.

Lemma hex_no_panic s p : hex.DecodeString s <> Panic p.
Proof.
  induction s as [|c|a b s IH] using string_pair_ind; simpl; [done | |].
  - by destruct (hex.fromHexChar c).
  - destruct (hex.fromHexChar a), (hex.fromHexChar b); try done.
    by destruct (hex.DecodeString s).
Qed.

(** Two digits for each byte: an odd text never decodes, and no byte of a
    text that decodes is left out. *)
Lemma hex_length s bs : hex.DecodeString s = Ok bs -> len s = 2 * length bs.
Proof.
  revert bs. induction s as [|c|a b s IH] using string_pair_ind;
    intros bs; simpl.
  - by intros [= <-].
  - by destruct (hex.fromHexChar c).
  - destruct (hex.fromHexChar a), (hex.fromHexChar b); try done.
    destruct (hex.DecodeString s) as [bs'| |]; simpl; [|done..].
    intros [= <-]. rewrite (IH bs' eq_refl). simpl. lia.
Qed.

Lemma hex_digits_of_byte b :
  let n := Byte.to_N b in
  let hi := digit_of "0123456789abcdef" (n / 16) in
  let lo := digit_of "0123456789abcdef" (n mod 16) in
  hex.fromHexChar hi = Some (n / 16)%N /\ hex.fromHexChar lo = Some (n mod 16)%N
  /\ byte_of_N (n / 16 * 16 + n mod 16) = b
  /\ Ascii.eqb "u" hi = false /\ Ascii.eqb "u" lo = false.
Proof. destruct b; vm_compute; done. Qed.

Lemma hex_round_trip bs : hex.DecodeString (hex_EncodeToString bs) = Ok bs.
Proof.
  induction bs as [|b bs IH]; [done |].
  destruct (hex_digits_of_byte b) as (Hhi & Hlo & Hb & _).
  cbn [hex_EncodeToString hex.DecodeString]. cbv zeta in *.
  by rewrite Hhi, Hlo, IH, <- Hb at 1.
Qed.

Lemma hex_EncodeToString_no_u bs : char_in "u" (hex_EncodeToString bs) = false.
Proof.
  induction bs as [|b bs IH]; [done |].
  destruct (hex_digits_of_byte b) as (_ & _ & _ & Hhi & Hlo).
  cbn [hex_EncodeToString char_in]. cbv zeta in *. by rewrite Hhi, Hlo, IH.
Qed.

Lemma base32_no_panic s p : base32.DecodeString s <> Panic p.
Proof. unfold base32.DecodeString. by destruct (base32.decode _ _). Qed.

Lemma QueryUnescape_no_panic s p : url.QueryUnescape s <> Panic p.
Proof.
  remember (len s) as n eqn:Hn. revert s Hn.
  induction (lt_wf n) as [n _ IH]. intros s ->.
  destruct s as [|c rest]; [done |]. cbn [url.QueryUnescape].
  destruct (Ascii.eqb c "%").
  - destruct rest as [|a [|b rest']]; try done.
    destruct (_ && _); [|done].
    pose proof (IH (len rest') ltac:(simpl; lia) rest' eq_refl) as H.
    by destruct (url.QueryUnescape rest').
  - pose proof (IH (len rest) ltac:(simpl; lia) rest eq_refl) as H.
    by destruct (url.QueryUnescape rest).
Qed.

Lemma ParseInt_no_panic s p : strconv.ParseInt s <> Panic p.
Proof.
  unfold strconv.ParseInt, strconv.ParseInt_as. destruct s as [|c s]; [done |].
  destruct (strconv.ParseUint _) as [un|[]]; try done;
    repeat (destruct (_ && _)); done.
Qed.

(** ** More on [newURN] *)

Section URNExtras.

Context `{!strings.Unicode}.

Lemma switch_ht_no_panic r ht hd p : switch_ht r ht hd <> Panic p.
Proof.
  unfold switch_ht. destruct ht as [[]|]; try done;
    try (by destruct (base32.DecodeString hd) eqn:E;
           [| |apply base32_no_panic in E]);
    try (by destruct (hex.DecodeString hd) eqn:E;
           [| |apply hex_no_panic in E]).
  destruct (Split hd ".") as [|b0 [|b1 [|b2 b]]]; try done. simpl.
  destruct (base32.DecodeString b0) eqn:E0; simpl; try done;
    [|by apply base32_no_panic in E0].
  destruct (base32.DecodeString b1) eqn:E1; simpl; try done.
  by apply base32_no_panic in E1.
Qed.

Lemma switch_ht_shape ht hd u :
  switch_ht {| Hashes := [] |} ht hd = Ok u ->
  Hashes u = []
  \/ (exists t d, Hashes u = [{| HType := t; Data := d |}]
        /\ t ∈ [HashTTH; HashSHA1; HashAICH; HashED2K; HashKazaa; HashBTIH])
  \/ (exists d1 d2, Hashes u = [{| HType := HashSHA1; Data := d1 |};
                                {| HType := HashTTH; Data := d2 |}]).
Proof.
  unfold switch_ht. destruct ht as [[]|];
    try (intros [= <-]; by left);
    try (destruct (base32.DecodeString hd) as [d| |]; simpl; [|done..];
         intros [= <-]; right; left; eexists _, d; split; [done | set_solver]);
    try (destruct (hex.DecodeString hd) as [d| |]; simpl; [|done..];
         intros [= <-]; right; left; eexists _, d; split; [done | set_solver]).
  destruct (Split hd ".") as [|b0 [|b1 [|b2 b]]]; try done. simpl.
  destruct (base32.DecodeString b0) as [d0| |]; simpl; [|done..].
  destruct (base32.DecodeString b1) as [d1| |]; simpl; [|done..].
  intros [= <-]. right; right. eauto.
Qed.

(** The outcome of the [range] loop, whatever the order. *)
Lemma range_HashTypeMap_cases (o : RangeOrder) urn :
  (exists d, d ∈ source_keys /\ HasPrefix (ToLower urn) d = true
     /\ range_HashTypeMap o urn
        = (hd ← slice_from urn (len d + 1); Ok (Some (HashTypeMap !!! d), hd)))
  \/ ((forall d, d ∈ source_keys -> HasPrefix (ToLower urn) d = false)
      /\ range_HashTypeMap o urn = Ok (None, "")).
Proof.
  destruct (decide (Exists (fun d => HasPrefix (ToLower urn) d = true)
                      source_keys)) as [He|Hn].
  - apply Exists_exists in He as (d & Hd & Hp). left. exists d.
    by rewrite (range_HashTypeMap_tag _ urn d).
  - right. assert (forall d, d ∈ source_keys ->
                     HasPrefix (ToLower urn) d = false) as Hm.
    { intros d Hd. apply not_true_is_false. intros Hp.
      apply Hn, Exists_exists; eauto. }
    split; [done | by apply range_HashTypeMap_none].
Qed.

(** A panic of [newURN] comes from the slice after the tag. *)
Lemma newURN_Panic_inv o v p :
  newURN o v = Panic p ->
  exists pre urn d,
    Split v "urn:" = [pre; urn] /\ d ∈ source_keys
    /\ HasPrefix (ToLower urn) d = true /\ len urn <= len d
    /\ p = slice_bounds_out_of_range (len d + 1) (len urn).
Proof.
  destruct (Split v "urn:") as [|pre [|urn [|x a]]] eqn:Hs;
    try (by rewrite newURN_pieces by by rewrite Hs).
  destruct (range_HashTypeMap_cases o urn) as [(d & Hd & Hp & _)|[Hm _]].
  - rewrite (newURN_tag o v pre urn d Hs Hd Hp). unfold slice_from.
    destruct (Nat.leb_spec (len d + 1) (len urn)); cbn [mbind result_bind].
    + intros Hsw. by apply switch_ht_no_panic in Hsw.
    + intros [= <-]. exists pre, urn, d. repeat split; try done. lia.
  - by rewrite (newURN_split _ _ _ _ Hs), (range_HashTypeMap_none o urn Hm).
Qed.

(** X11. [newURN] panics exactly when the text after the one [urn:]
    starts, in any case, with a scheme tag and is no longer than the tag:
    the slice [urn[len(d)+1:]] is then out of range. The panic value
    names the bounds. Each other input gives a URN or an error. *)
Theorem newURN_panics_iff o v p :
  newURN o v = Panic p <->
  exists pre urn d,
    Split v "urn:" = [pre; urn] /\ d ∈ source_keys
    /\ HasPrefix (ToLower urn) d = true /\ len urn <= len d
    /\ p = slice_bounds_out_of_range (len d + 1) (len urn).
Proof.
  split; [apply newURN_Panic_inv |].
  intros (pre & urn & d & Hs & Hd & Hp & Hl & ->).
  rewrite (newURN_tag o v pre urn d Hs Hd Hp). unfold slice_from.
  destruct (Nat.leb_spec (len d + 1) (len urn)); [lia | done].
Qed.

(** X12. A URN that [newURN] returns holds no hash, or one hash of one of
    the six types that are decoded alone, or the two hashes SHA1 and
    TigerTree in that order. No hash has the type BitPrint or MD5. *)
Theorem newURN_hashes_shape o v u :
  newURN o v = Ok u ->
  Hashes u = []
  \/ (exists t d, Hashes u = [{| HType := t; Data := d |}]
        /\ t ∈ [HashTTH; HashSHA1; HashAICH; HashED2K; HashKazaa; HashBTIH])
  \/ (exists d1 d2, Hashes u = [{| HType := HashSHA1; Data := d1 |};
                                {| HType := HashTTH; Data := d2 |}]).
Proof.
  unfold newURN.
  destruct (Split v "urn:") as [|pre [|urn [|x a]]] eqn:Hs; try done. simpl.
  destruct (range_HashTypeMap o urn) as [[ht hd]| |]; simpl; [|done..].
  apply switch_ht_shape.
Qed.

(** X13. [newURN] returns a URN without hashes exactly when the text after
    the one [urn:] starts with none of the eight scheme tags, or starts
    with [md5] and is at least four bytes long: the [switch] has no case
    for these, and the payload is not examined. *)
Theorem empty_urn_iff o v :
  newURN o v = Ok {| Hashes := [] |} <->
  exists pre urn,
    Split v "urn:" = [pre; urn]
    /\ ((forall d, d ∈ source_keys -> HasPrefix (ToLower urn) d = false)
        \/ (HasPrefix (ToLower urn) "md5" = true /\ 4 <= len urn)).
Proof.
  assert ("md5" ∈ source_keys) as Hmd5.
  { apply (bool_decide_unpack _). by vm_compute. }
  destruct HashTypeMap_values as (Ht & Hs1 & Hbp & He & Ha & Hk & Hb & Hm5).
  split.
  - destruct (Split v "urn:") as [|pre [|urn [|x a]]] eqn:Hs;
      try (by rewrite newURN_pieces by by rewrite Hs).
    intros Hu. exists pre, urn. split; [done |].
    destruct (range_HashTypeMap_cases o urn) as [(d & Hd & Hp & _)|[Hm _]];
      [| by left].
    right. rewrite (newURN_tag o v pre urn d Hs Hd Hp) in Hu.
    unfold slice_from in Hu.
    destruct (Nat.leb_spec (len d + 1) (len urn)) as [Hl|Hl];
      cbn [mbind result_bind] in Hu; [|done].
    unfold source_keys in Hd. apply list_elem_of_In in Hd. simpl in Hd.
    destruct Hd as [<-|[<-|[<-|[<-|[<-|[<-|[<-|[<-|[]]]]]]]]];
      rewrite ?Ht, ?Hs1, ?Hbp, ?He, ?Ha, ?Hk, ?Hb, ?Hm5 in Hu;
      unfold switch_ht in Hu;
      try (destruct (base32.DecodeString _); by simplify_eq/=);
      try (destruct (hex.DecodeString _); by simplify_eq/=);
      try (split; [done | simpl in Hl; lia]).
    destruct (Split _ ".") as [|b0 [|b1 [|b2 b]]]; try done. simpl in Hu.
    destruct (base32.DecodeString b0); simpl in Hu; [|done..].
    destruct (base32.DecodeString b1); by simplify_eq/=.
  - intros (pre & urn & Hs & [Hm|[Hp Hl]]).
    + by rewrite (newURN_split _ _ _ _ Hs), (range_HashTypeMap_none o urn Hm).
    + rewrite (newURN_tag o v pre urn "md5" Hs Hmd5 Hp). unfold slice_from.
      destruct (Nat.leb_spec (len "md5" + 1) (len urn)) as [_|Hc];
        [| simpl in Hc; lia].
      cbn [mbind result_bind]. by rewrite Hm5.
Qed.

Lemma ToLowerASCII_len t : len (ToLowerASCII t) = len t.
Proof. induction t as [|c t IH]; simpl; [done | by rewrite IH]. Qed.

(** X14. The scheme tag is matched without regard to case, and the byte
    after the tag is skipped without being compared with [:]: a URN whose
    tag is written in any case and followed by any byte parses like the
    one with the lower-case tag and [:]. *)
Theorem tag_case_and_separator_byte o t c payload d :
  isASCII t = true -> ToLowerASCII t = d -> d ∈ source_keys ->
  Index (String c payload) "urn:" = None ->
  newURN o ("urn:" +:+ t +:+ String c payload)
  = newURN o ("urn:" +:+ d +:+ ":" +:+ payload).
Proof.
  intros Ha Hl Hd Hi.
  assert (Index payload "urn:" = None) as Hp.
  { rewrite Index_unfold in Hi. destruct (HasPrefix _ _); [done |].
    by destruct (Index payload "urn:"). }
  rewrite (newURN_scheme o d payload Hd Hp).
  assert (char_in "u" t = false) as Hu.
  { destruct (char_in "u" t) eqn:E; [|done].
    apply ToLowerASCII_char_in in E. rewrite Hl in E.
    unfold source_keys in Hd. set_unfold in Hd.
    destruct Hd as [->|[->|[->|[->|[->|[->|[->|[->|[]]]]]]]]]; done. }
  rewrite (newURN_tag o _ "" (t +:+ String c payload) d).
  - replace (t +:+ String c payload) with ((t +:+ String c "") +:+ payload)
      by by rewrite str_app_assoc.
    replace (len d + 1) with (len (t +:+ String c ""))
      by (rewrite len_app, <- Hl, ToLowerASCII_len; simpl; lia).
    by rewrite slice_from_app.
  - apply Split_urn. by rewrite (Index_skip "u" "rn:" t _ Hu), Hi.
  - done.
  - rewrite (ToLower_app _ _ Ha), Hl. apply HasPrefix_app.
Qed.

Lemma hex_tag_in_keys d :
  d ∈ ["ed2k"; "kzhash"; "btih"] -> d ∈ source_keys.
Proof.
  intros Hd. apply list_elem_of_In in Hd. simpl in Hd.
  destruct Hd as [<-|[<-|[<-|[]]]]; apply (bool_decide_unpack _); by vm_compute.
Qed.

(** X15. For the three schemes decoded as hexadecimal, [newURN] undoes
    [hex.EncodeToString]: the URN of the encoded bytes holds one hash of
    the type of the tag with those bytes, in every order of the [range]
    loop. *)
Theorem hex_urn_round_trip o d bs :
  d ∈ ["ed2k"; "kzhash"; "btih"] ->
  newURN o ("urn:" +:+ d +:+ ":" +:+ hex_EncodeToString bs)
  = Ok {| Hashes := [{| HType := HashTypeMap !!! d; Data := bs |}] |}.
Proof.
  intros Hd.
  rewrite newURN_scheme;
    [| by apply hex_tag_in_keys
     | apply (Index_absent "u" "rn:"), hex_EncodeToString_no_u].
  destruct HashTypeMap_values as (_ & _ & _ & He & _ & Hk & Hb & _).
  apply list_elem_of_In in Hd. simpl in Hd.
  destruct Hd as [<-|[<-|[<-|[]]]];
    rewrite ?He, ?Hk, ?Hb; unfold switch_ht; by rewrite hex_round_trip.
Qed.

(** X16. When [newURN] accepts a URN of one of the three hexadecimal
    schemes, the result holds one hash of the type of the tag, its data
    is the decoding of the payload, and the payload is twice as long as
    the data. *)
Theorem hex_urn_data_length o d payload u :
  d ∈ ["ed2k"; "kzhash"; "btih"] ->
  newURN o ("urn:" +:+ d +:+ ":" +:+ payload) = Ok u ->
  exists data, Hashes u = [{| HType := HashTypeMap !!! d; Data := data |}]
    /\ hex.DecodeString payload = Ok data /\ len payload = 2 * length data.
Proof.
  intros Hd.
  pose proof (hex_tag_in_keys d Hd) as Hd'.
  destruct (Index payload "urn:") as [m|] eqn:Hi.
  { by rewrite (newURN_scheme_twice o d payload m Hd' Hi). }
  rewrite (newURN_scheme o d payload Hd' Hi).
  destruct HashTypeMap_values as (_ & _ & _ & He & _ & Hk & Hb & _).
  apply list_elem_of_In in Hd. simpl in Hd.
  destruct Hd as [<-|[<-|[<-|[]]]];
    rewrite ?He, ?Hk, ?Hb; unfold switch_ht;
    (destruct (hex.DecodeString payload) as [data| |] eqn:Hx; simpl; [|done..];
     intros [= <-]; exists data; repeat split; by apply hex_length).
Qed.

End URNExtras.

(** ** Numbers in range *)

Lemma digit_range c d : strconv.digit c = Some d -> (0 <= d <= 9)%Z.
Proof.
  unfold strconv.digit.
  destruct (Nat.leb_spec 48 (nat_of_ascii c)); simpl; [|done].
  destruct (Nat.leb_spec (nat_of_ascii c) 57); simpl; [|done].
  intros [= <-]. lia.
Qed.

Lemma ParseUint_loop_nonneg s :
  forall n u, (0 <= n)%Z -> strconv.ParseUint_loop s n = inl u -> (0 <= u)%Z.
Proof.
  induction s as [|c s IH]; intros n u Hn; cbn [strconv.ParseUint_loop].
  - by intros [= <-].
  - destruct (strconv.digit c) as [d|] eqn:Hd; [|done].
    apply digit_range in Hd.
    destruct (Z.leb _ n); [done |]. destruct (Z.ltb _ _); [done |].
    apply IH. lia.
Qed.

(** A value of [ParseInt] or [Atoi] fits 64 bits. *)
Lemma ParseInt_as_range fn s u :
  strconv.ParseInt_as fn s 64 = Ok u -> (- 2 ^ 63 <= u < 2 ^ 63)%Z.
Proof.
  unfold strconv.ParseInt_as. destruct s as [|c s]; [done |].
  set (ds := if Ascii.eqb c "+" || Ascii.eqb c "-" then s else String c s).
  set (cutoff := (2 ^ (64 - 1))%Z).
  assert (cutoff = 2 ^ 63)%Z as Hc by reflexivity.
  assert ((cutoff <=? strconv.maxUint64)%Z = true) as Hle by by vm_compute.
  assert ((cutoff <? strconv.maxUint64)%Z = true) as Hlt by by vm_compute.
  assert (forall un, strconv.ParseUint ds = inl un -> (0 <= un)%Z) as Hn.
  { intros un. unfold strconv.ParseUint. destruct ds; [done |].
    by apply ParseUint_loop_nonneg. }
  clearbody cutoff.
  destruct (strconv.ParseUint ds) as [un|[]]; [| done |].
  - specialize (Hn un eq_refl).
    destruct (Ascii.eqb c "-"); cbn [negb andb].
    + destruct (Z.ltb_spec cutoff un); [done |]. intros [= <-]. lia.
    + destruct (Z.leb_spec cutoff un); [done |]. intros [= <-]. lia.
  - destruct (Ascii.eqb c "-"); cbn [negb andb]; by rewrite ?Hle, ?Hlt.
Qed.

(** ** Panics, keys and texts *)

Lemma newMagnetKey_mt :
  newMagnetKey "mt" = Ok {| KType := KeyManifestTopic; Indx := 0; Supl := "" |}.
Proof. by vm_compute. Qed.

(** The bytes that [url.QueryEscape] writes for one byte. *)
Lemma QueryEscape_cons c s :
  url_QueryEscape (String c s)
  = url_QueryEscape (String c "") +:+ url_QueryEscape s.
Proof.
  cbn [url_QueryEscape]. destruct (Ascii.eqb c " "); [done |].
  by destruct (shouldEscape c).
Qed.

Lemma QueryEscape_byte c :
  (forall rest,
      url.QueryUnescape (url_QueryEscape (String c "") +:+ rest)
      = (t ← url.QueryUnescape rest; Ok (String c t)))
  /\ char_in "?" (url_QueryEscape (String c "")) = false
  /\ char_in "&" (url_QueryEscape (String c "")) = false
  /\ char_in "=" (url_QueryEscape (String c "")) = false.
Proof.
  destruct c as [[] [] [] [] [] [] [] []]; (split; [intros rest|by vm_compute]);
    reflexivity.
Qed.

Lemma QueryEscape_round_trip s :
  url.QueryUnescape (url_QueryEscape s) = Ok s.
Proof.
  induction s as [|c s IH]; [done |].
  by rewrite QueryEscape_cons, (proj1 (QueryEscape_byte c)), IH.
Qed.

Lemma QueryEscape_no_separator s :
  char_in "?" (url_QueryEscape s) = false
  /\ char_in "&" (url_QueryEscape s) = false
  /\ char_in "=" (url_QueryEscape s) = false.
Proof.
  induction s as [|c s (IH1 & IH2 & IH3)]; [done |].
  destruct (QueryEscape_byte c) as (_ & H1 & H2 & H3).
  by rewrite QueryEscape_cons, !char_in_app, H1, H2, H3, IH1, IH2, IH3.
Qed.

Section MoreDispatch.

Context `{!strings.Unicode} `{!url.Parser}.

Lemma parseKeyVal_Panic o m k v p :
  parseKeyVal o m k v = Panic p -> newURN o v = Panic p.
Proof.
  destruct (newMagnetKey k) as [mk| |] eqn:Hk.
  - rewrite (parseKeyVal_classified _ _ _ _ _ Hk).
    destruct (KType mk); try destruct (HasPrefix _ _);
      try (by destruct (url.Parse v));
      try (by destruct (url.QueryUnescape v) eqn:E;
             [| |apply QueryUnescape_no_panic in E]);
      try (by destruct (strconv.ParseInt v) eqn:E;
             [| |apply ParseInt_no_panic in E]);
      try done;
      by destruct (newURN o v); simpl; try done; intros [= ->].
  - unfold parseKeyVal. by rewrite Hk.
  - by apply newMagnetKey_no_panic in Hk.
Qed.

Lemma range_tokens_Panic os toks p :
  forall i m,
    range_tokens os i m toks = Panic p ->
    p = index_out_of_range 1 1 \/ exists o v, newURN o v = Panic p.
Proof.
  induction toks as [|tok toks IH]; intros i m; [done |].
  cbn [range_tokens]. pose proof (Split_nonempty tok "=") as Hne.
  destruct (Split tok "=") as [|k [|v rest]]; [done | |].
  - intros [= <-]. by left.
  - simpl.
    destruct (parseKeyVal (os i) m k v) as [m1| |] eqn:Hkv; simpl;
      [apply IH | done |].
    intros [= <-]. right. exists (os i), v. by apply parseKeyVal_Panic in Hkv.
Qed.

(** X17. The parser has two panics and no other: the index [1] on a token
    without [=], and the slice after a scheme tag that ends the URN. The
    assignment to the nil map [Suplements] is never reached. *)
Theorem NewMagnet_panics_only os s p :
  NewMagnet os s = Panic p ->
  p = index_out_of_range 1 1
  \/ exists d n, d ∈ source_keys /\ n <= len d
       /\ p = slice_bounds_out_of_range (len d + 1) n.
Proof.
  unfold NewMagnet, parseMagnet.
  destruct (Split s ":?") as [|a0 [|q [|x a]]]; try done. simpl.
  destruct (negb _); [done |]. simpl. destruct (_ =? 0)%nat; [done |].
  destruct (range_tokens _ _ _ _) as [m'| |] eqn:Hr; simpl; [done..|].
  intros [= <-]. apply range_tokens_Panic in Hr as [->|(o & v & Hu)];
    [by left |].
  apply newURN_Panic_inv in Hu as (pre & urn & d & _ & Hd & _ & Hl & ->).
  right. eauto.
Qed.

(** X18. An [mt] value whose lowered text starts with [urn] is handed to
    [newURN] even when it is not a URN: without the text [urn:] it is
    rejected with [ErrInvalidMagnet], and is not kept as a link. *)
Theorem manifest_topic_with_urn_prefix v :
  HasPrefix (ToLower v) "urn" = true -> Index v "urn:" = None ->
  (forall o m, parseKeyVal o m "mt" v = Err ErrInvalidMagnet)
  /\ (forall os,
        char_in "?" v = false -> char_in "&" v = false ->
        char_in "=" v = false ->
        NewMagnet os ("magnet:?mt=" +:+ v) = Err ErrInvalidMagnet).
Proof.
  intros Hp Hi.
  assert (forall o m, parseKeyVal o m "mt" v = Err ErrInvalidMagnet) as Hkv.
  { intros o m. rewrite (parseKeyVal_classified _ _ _ _ _ newMagnetKey_mt).
    simpl KType. cbv iota. rewrite Hp, newURN_pieces; [done |].
    by rewrite (Split_None _ _ Hi). }
  split; [done |]. intros os Hq Ha He.
  change ("magnet:?mt=" +:+ v) with ("magnet:?" +:+ "mt" +:+ "=" +:+ v).
  by rewrite NewMagnet_single.
Qed.

(** X19. For the three text keys [dn], [kt] and [tr], parsing undoes
    [url.QueryEscape]: the magnet string of one such key with the escaped
    form of any text [s] yields a Magnet whose field holds [s] and
    nothing else. *)
Theorem text_round_trip os s :
  NewMagnet os ("magnet:?dn=" +:+ url_QueryEscape s)
  = Ok (set_DisplayNames Magnet_zero [s])
  /\ NewMagnet os ("magnet:?kt=" +:+ url_QueryEscape s)
     = Ok (set_KeywordTopics Magnet_zero [s])
  /\ NewMagnet os ("magnet:?tr=" +:+ url_QueryEscape s)
     = Ok (set_TrackerAddresses Magnet_zero [s]).
Proof.
  destruct (QueryEscape_no_separator s) as (Hq & Ha & He).
  repeat split.
  - change ("magnet:?dn=" +:+ ?v) with ("magnet:?" +:+ "dn" +:+ "=" +:+ v).
    rewrite NewMagnet_single; try done.
    unfold parseKeyVal.
    replace (newMagnetKey "dn")
      with (Ok {| KType := KeyDisplayName; Indx := 0; Supl := "" |})
      by by vm_compute.
    simpl. by rewrite QueryEscape_round_trip.
  - change ("magnet:?kt=" +:+ ?v) with ("magnet:?" +:+ "kt" +:+ "=" +:+ v).
    rewrite NewMagnet_single; try done.
    unfold parseKeyVal.
    replace (newMagnetKey "kt")
      with (Ok {| KType := KeyKeywordTopic; Indx := 0; Supl := "" |})
      by by vm_compute.
    simpl. by rewrite QueryEscape_round_trip.
  - change ("magnet:?tr=" +:+ ?v) with ("magnet:?" +:+ "tr" +:+ "=" +:+ v).
    rewrite NewMagnet_single; try done.
    unfold parseKeyVal.
    replace (newMagnetKey "tr")
      with (Ok {| KType := KeyTrackerAddress; Indx := 0; Supl := "" |})
      by by vm_compute.
    simpl. by rewrite QueryEscape_round_trip.
Qed.

(** X20. The numbers stay in the range of their Go types: [ExactLength]
    of a parsed Magnet is a 64-bit signed integer, and so is the index of
    a classified key. *)
Theorem numbers_in_range :
  (forall os s m,
      NewMagnet os s = Ok m -> (- 2 ^ 63 <= ExactLength m < 2 ^ 63)%Z)
  /\ (forall k mk,
        newMagnetKey k = Ok mk -> (- 2 ^ 63 <= Indx mk < 2 ^ 63)%Z).
Proof.
  split.
  - intros os s m (a0 & q & _ & _ & Hr)%NewMagnet_Ok_inv.
    rewrite (range_tokens_ExactLength _ _ _ _ _ Hr). simpl.
    assert (Forall (fun u => - 2 ^ 63 <= u < 2 ^ 63)%Z
              (omap xl_value (Split q "&"))) as Hall.
    { apply Forall_forall. intros u (tok & _ & Hu)%list_elem_of_omap.
      unfold xl_value in Hu.
      destruct (Split tok "=") as [|k [|v rest]]; try done.
      destruct (String.eqb _ _); [|done].
      destruct (strconv.ParseInt v) as [u'| |] eqn:Hv; try done.
      injection Hu as <-. by apply ParseInt_as_range in Hv. }
    destruct (last _) as [u|] eqn:Hl; simpl; [|lia].
    apply last_Some_elem_of in Hl. rewrite Forall_forall in Hall.
    by apply Hall.
  - intros k mk (_ & _ & _ & _ & Hi)%newMagnetKey_Ok.
    destruct (Split k ".") as [|c0 [|c1 [|c2 c]]]; try done.
    + rewrite Hi. lia.
    + by apply (ParseInt_as_range "Atoi") in Hi.
Qed.

End MoreDispatch.

(** X21. The type of a key is decided by its first two bytes: a key
    shorter than two bytes, or whose first two bytes are not in the
    table, is rejected with [ErrInvalidMagnet]; a key that starts with one
    of the eight plain prefixes and holds no [.] after it is accepted
    with that type and index [0], whatever follows the prefix. *)
Theorem key_type_from_first_two_bytes :
  (forall k, len k < 2 -> newMagnetKey k = Err ErrInvalidMagnet)
  /\ (forall k, key_type k = None -> newMagnetKey k = Err ErrInvalidMagnet)
  /\ (forall p rest ty,
        len p = 2 -> key_type p = Some ty -> ty <> KeySuplement ->
        char_in "." rest = false ->
        newMagnetKey (p +:+ rest) = Ok {| KType := ty; Indx := 0; Supl := "" |}).
Proof.
  repeat split.
  - intros k Hl. unfold newMagnetKey.
    destruct (Nat.ltb_spec (len k) 2); [done | lia].
  - intros k Hk. unfold newMagnetKey. unfold key_type in Hk. rewrite Hk.
    by destruct (_ <? _)%nat.
  - intros p rest ty Hl Hty Hne Hr.
    assert (str_take 2 (p +:+ rest) = p) as Hp.
    { rewrite <- Hl. apply str_take_app. }
    assert (str_take 2 p = p) as Hp'.
    { destruct p as [|a [|b [|c p]]]; simpl in Hl; try lia. done. }
    unfold key_type in Hty. rewrite Hp' in Hty.
    assert (char_in "." p = false) as Hd.
    { unfold KeyTypeMap in Hty. apply elem_of_list_to_map_2 in Hty.
      apply list_elem_of_In in Hty. simpl in Hty.
      destruct Hty as [Hx|[Hx|[Hx|[Hx|[Hx|[Hx|[Hx|[Hx|[Hx|[]]]]]]]]]];
        by simplify_eq. }
    rewrite (newMagnetKey_plain _ ty); [| rewrite len_app; lia | by rewrite Hp | done].
    rewrite (Split_absent "." ""); [done |].
    by rewrite char_in_app, Hd, Hr.
Qed.

Section Success.

Context `{!strings.Unicode} `{!url.Parser}.

Lemma range_tokens_Ok_tokens os toks :
  forall i m m',
    range_tokens os i m toks = Ok m' ->
    Forall (fun tok => exists k v rest ty,
              Split tok "=" = k :: v :: rest
              /\ key_type k = Some ty /\ ty <> KeySuplement) toks.
Proof.
  induction toks as [|tok toks IH]; intros i m m'; [by constructor |].
  cbn [range_tokens].
  destruct (Split tok "=") as [|k [|v rest]] eqn:Hs; [done | done |]. simpl.
  destruct (parseKeyVal (os i) m k v) as [m1| |] eqn:Hkv; simpl; [|done..].
  intros Hr. constructor; [|by eapply IH].
  unfold parseKeyVal in Hkv.
  destruct (newMagnetKey k) as [mk| |] eqn:Hk; [|done..].
  apply newMagnetKey_Ok in Hk as (_ & Hty & Hne & _).
  by exists k, v, rest, (KType mk).
Qed.

(** X22. When [NewMagnet] succeeds, the query has at least one token, and
    every token holds a [=] and has a key of one of the eight plain types:
    one bad token anywhere fails the whole parse. *)
Theorem success_needs_every_token os s m :
  NewMagnet os s = Ok m ->
  query_tokens s <> []
  /\ Forall (fun tok => exists k v rest ty,
               Split tok "=" = k :: v :: rest
               /\ key_type k = Some ty /\ ty <> KeySuplement)
       (query_tokens s).
Proof.
  intros (a0 & q & Hs & _ & Hr)%NewMagnet_Ok_inv.
  unfold query_tokens. rewrite Hs. split; [apply Split_nonempty |].
  by eapply range_tokens_Ok_tokens.
Qed.

End Success.

(** ** Base 32: encoding and decoding *)

Lemma all_bytes_complete b : existsb (Byte.eqb b) all_bytes = true.
Proof. destruct b; vm_compute; reflexivity. Qed.

Lemma forall_byte (P : byte -> bool) :
  forallb P all_bytes = true -> forall b, P b = true.
Proof.
  intros H b. rewrite forallb_forall in H. apply H.
  pose proof (all_bytes_complete b) as He.
  apply existsb_exists in He as (x & Hx & He).
  by apply Byte.byte_dec_bl in He as ->.
Qed.

Lemma forall_byte2 (P : byte -> byte -> bool) :
  forallb (fun a => forallb (P a) all_bytes) all_bytes = true ->
  forall a b, P a b = true.
Proof.
  intros H a. apply forall_byte.
  by apply (forall_byte (fun a => forallb (P a) all_bytes)).
Qed.

(** [byte(n)] keeps the low eight bits. *)
Lemma byte_of_N_land n : byte_of_N n = byte_of_N (N.land n 255).
Proof.
  unfold byte_of_N. f_equal. destruct n as [|p]; [done |].
  do 8 (destruct p as [p|p|]; try reflexivity).
Qed.

Lemma N_lt_32 (P : N -> bool) :
  forallb P (N.of_nat <$> seq 0 32) = true ->
  forall d, (d < 32)%N -> P d = true.
Proof.
  intros H d Hd. rewrite forallb_forall in H. apply H.
  apply list_elem_of_In, list_elem_of_fmap. exists (N.to_nat d).
  split; [lia |]. apply elem_of_seq. lia.
Qed.

(** A digit of the alphabet decodes to its value, and is none of the
    bytes that the parser or the decoder treats specially. *)
Lemma digit_decodes d :
  (d < 32)%N ->
  base32.decodeMap (digit_of encodeStd d) = Some d
  /\ char_in (digit_of encodeStd d) (String "013" (String "010" "=u.:?&"))
     = false.
Proof.
  intros Hd.
  pose proof (N_lt_32
    (fun d => match base32.decodeMap (digit_of encodeStd d) with
              | Some d' => N.eqb d' d
              | None => false
              end
              && negb (char_in (digit_of encodeStd d)
                         (String "013" (String "010" "=u.:?&"))))) as H.
  specialize (H ltac:(vm_compute; reflexivity) d Hd). cbv beta in H.
  apply andb_prop in H as [H1 H2]. split.
  - destruct (base32.decodeMap _) as [d'|]; [|done].
    by apply N.eqb_eq in H1 as ->.
  - by apply negb_true_iff in H2.
Qed.

(** The values that [Encode] unpacks are below 32. *)
Lemma unpack_range (s0 s1 s2 s3 s4 : byte) :
  Forall (fun d => (d < 32)%N)
    (unpack (Byte.to_N s0) (Byte.to_N s1) (Byte.to_N s2) (Byte.to_N s3)
       (Byte.to_N s4)).
Proof.
  unfold unpack.
  repeat match goal with
         | |- Forall _ (_ :: _) => constructor
         | |- Forall _ [] => constructor
         end; apply N.ltb_lt.
  - revert s0. apply forall_byte; vm_compute; reflexivity.
  - revert s0 s1. apply forall_byte2; vm_compute; reflexivity.
  - revert s1. apply forall_byte; vm_compute; reflexivity.
  - revert s1 s2. apply forall_byte2; vm_compute; reflexivity.
  - revert s2 s3. apply forall_byte2; vm_compute; reflexivity.
  - revert s3. apply forall_byte; vm_compute; reflexivity.
  - revert s3 s4. apply forall_byte2; vm_compute; reflexivity.
  - revert s4. apply forall_byte; vm_compute; reflexivity.
Qed.

(** *** The five bytes of a quantum *)

Local Abbreviation n8 := Byte.to_N.
Local Abbreviation d0 a := (N.shiftr a 3).
Local Abbreviation d1 a b :=
  (N.lor (N.land (N.shiftl a 2) 31) (N.land (N.shiftr b 6) 31)).
Local Abbreviation d2 b := (N.land (N.shiftr b 1) 31).
Local Abbreviation d3 b c :=
  (N.lor (N.land (N.shiftl b 4) 31) (N.land (N.shiftr c 4) 31)).
Local Abbreviation d4 c d := (N.lor (N.land (N.shiftl c 1) 31) (N.shiftr d 7)).
Local Abbreviation d5 d := (N.land (N.shiftr d 2) 31).
Local Abbreviation d6 d e := (N.lor (N.land (N.shiftl d 3) 31) (N.shiftr e 5)).
Local Abbreviation d7 e := (N.land e 31).

Local Ltac bytes_N :=
  intros; apply N.eqb_eq;
  repeat match goal with b : byte |- _ => revert b end;
  first [apply forall_byte2 | apply forall_byte]; vm_compute; reflexivity.

Local Ltac bytes_byte :=
  intros; apply Byte.byte_dec_bl;
  repeat match goal with b : byte |- _ => revert b end;
  first [apply forall_byte2 | apply forall_byte]; vm_compute; reflexivity.

Lemma out0 (a b : byte) :
  byte_of_N (N.lor (N.shiftl (d0 (n8 a)) 3) (N.shiftr (d1 (n8 a) (n8 b)) 2))
  = a.
Proof. bytes_byte. Qed.

Lemma out4 (d e : byte) :
  byte_of_N (N.lor (N.shiftl (d6 (n8 d) (n8 e)) 5) (d7 (n8 e))) = e.
Proof. bytes_byte. Qed.

(** The high bits of a value come from one source byte, the low bits
    from the next one. *)
Lemma d1_high (a b : byte) :
  N.land (N.shiftl (d1 (n8 a) (n8 b)) 6) 255
  = N.land (N.shiftl (d1 0 (n8 b)) 6) 255.
Proof. bytes_N. Qed.

Lemma d3_low (b c : byte) :
  N.land (N.shiftr (d3 (n8 b) (n8 c)) 4) 255
  = N.land (N.shiftr (d3 (n8 b) 0) 4) 255.
Proof. bytes_N. Qed.

Lemma d3_high (b c : byte) :
  N.land (N.shiftl (d3 (n8 b) (n8 c)) 4) 255
  = N.land (N.shiftl (d3 0 (n8 c)) 4) 255.
Proof. bytes_N. Qed.

Lemma d4_low (c d : byte) :
  N.land (N.shiftr (d4 (n8 c) (n8 d)) 1) 255
  = N.land (N.shiftr (d4 (n8 c) 0) 1) 255.
Proof. bytes_N. Qed.

Lemma d4_high (c d : byte) :
  N.land (N.shiftl (d4 (n8 c) (n8 d)) 7) 255
  = N.land (N.shiftl (d4 0 (n8 d)) 7) 255.
Proof. bytes_N. Qed.

Lemma d6_low (d e : byte) :
  N.land (N.shiftr (d6 (n8 d) (n8 e)) 3) 255
  = N.land (N.shiftr (d6 (n8 d) 0) 3) 255.
Proof. bytes_N. Qed.

Lemma out1 (a b c : byte) :
  byte_of_N (N.lor (N.lor (N.shiftl (d1 (n8 a) (n8 b)) 6)
                      (N.shiftl (d2 (n8 b)) 1))
               (N.shiftr (d3 (n8 b) (n8 c)) 4))
  = b.
Proof.
  rewrite byte_of_N_land, !N.land_lor_distr_l, d1_high, d3_low.
  revert b. clear. bytes_byte.
Qed.

Lemma out2 (b c d : byte) :
  byte_of_N (N.lor (N.shiftl (d3 (n8 b) (n8 c)) 4)
               (N.shiftr (d4 (n8 c) (n8 d)) 1))
  = c.
Proof.
  rewrite byte_of_N_land, !N.land_lor_distr_l, d3_high, d4_low.
  revert c. clear. bytes_byte.
Qed.

Lemma out3 (c d e : byte) :
  byte_of_N (N.lor (N.lor (N.shiftl (d4 (n8 c) (n8 d)) 7)
                      (N.shiftl (d5 (n8 d)) 2))
               (N.shiftr (d6 (n8 d) (n8 e)) 3))
  = d.
Proof.
  rewrite byte_of_N_land, !N.land_lor_distr_l, d4_high, d6_low.
  revert d. clear. bytes_byte.
Qed.

(** [decode] packs the values of a quantum back into its bytes. *)
Lemma pack_unpack (a b c d e : byte) :
  base32.pack (unpack (n8 a) (n8 b) (n8 c) (n8 d) (n8 e)) = [a; b; c; d; e].
Proof.
  unfold base32.pack, unpack.
  cbn [nth length take fmap list_fmap].
  by rewrite out0, out1, out2, out3, out4.
Qed.

Lemma pack_unpack_1 (a : byte) :
  base32.pack (take 2 (unpack (n8 a) 0 0 0 0)) = [a].
Proof.
  unfold base32.pack, unpack. cbn [nth length take fmap list_fmap].
  f_equal. exact (out0 a "000"%byte).
Qed.

Lemma pack_unpack_2 (a b : byte) :
  base32.pack (take 4 (unpack (n8 a) (n8 b) 0 0 0)) = [a; b].
Proof.
  unfold base32.pack, unpack. cbn [nth length take fmap list_fmap].
  f_equal; [exact (out0 a b) |]. f_equal. exact (out1 a b "000"%byte).
Qed.

Lemma pack_unpack_3 (a b c : byte) :
  base32.pack (take 5 (unpack (n8 a) (n8 b) (n8 c) 0 0)) = [a; b; c].
Proof.
  unfold base32.pack, unpack. cbn [nth length take fmap list_fmap].
  f_equal; [exact (out0 a b) |]. f_equal; [exact (out1 a b c) |].
  f_equal. exact (out2 b c "000"%byte).
Qed.

Lemma pack_unpack_4 (a b c d : byte) :
  base32.pack (take 7 (unpack (n8 a) (n8 b) (n8 c) (n8 d) 0)) = [a; b; c; d].
Proof.
  unfold base32.pack, unpack. cbn [nth length take fmap list_fmap].
  f_equal; [exact (out0 a b) |]. f_equal; [exact (out1 a b c) |].
  f_equal; [exact (out2 b c d) |]. f_equal. exact (out3 c d "000"%byte).
Qed.

(** *** The loops of [decode] on the output of the encoder *)

Lemma digits_string_app ds ds' :
  digits_string (ds ++ ds')%list = digits_string ds +:+ digits_string ds'.
Proof. induction ds as [|d ds IH]; simpl; [done | by rewrite IH]. Qed.

Lemma char_in_digits c ds :
  char_in c (String "013" (String "010" "=u.:?&")) = true ->
  Forall (fun d => (d < 32)%N) ds ->
  char_in c (digits_string ds) = false.
Proof.
  intros Hc. induction 1 as [|d ds Hd _ IH]; simpl; [done |].
  rewrite IH, orb_false_r.
  destruct (digit_decodes d Hd) as [_ Hn].
  destruct (Ascii.eqb_spec c (digit_of encodeStd d)) as [->|]; [|done].
  by rewrite Hn in Hc.
Qed.

(** One round of the inner loop on a digit. *)
Lemma quantum_digit k dbuf d src :
  (d < 32)%N ->
  base32.quantum (S k) dbuf (String (digit_of encodeStd d) src)
  = base32.quantum k (dbuf ++ [d]) src.
Proof.
  intros Hd. destruct (digit_decodes d Hd) as [Hm Hn].
  cbn [base32.quantum]. rewrite Hm.
  simpl in Hn. apply orb_false_elim in Hn as [_ Hn].
  apply orb_false_elim in Hn as [_ Hn].
  apply orb_false_elim in Hn as [Hn _]. by rewrite Hn.
Qed.

Lemma quantum_digits ds :
  Forall (fun d => (d < 32)%N) ds ->
  forall k dbuf src,
    base32.quantum (length ds + k) dbuf (digits_string ds +:+ src)
    = base32.quantum k (dbuf ++ ds) src.
Proof.
  induction 1 as [|d ds Hd _ IH]; intros k dbuf src.
  - by rewrite app_nil_r.
  - cbn [length digits_string Nat.add]. simpl String.append.
    rewrite (quantum_digit _ _ _ _ Hd), IH. by rewrite <- app_assoc.
Qed.

(** A whole quantum. *)
Lemma quantum_unpack (a b c d e : byte) src :
  base32.quantum 8 []
    (digits_string (unpack (n8 a) (n8 b) (n8 c) (n8 d) (n8 e)) +:+ src)
  = Some (unpack (n8 a) (n8 b) (n8 c) (n8 d) (n8 e), false, src).
Proof.
  exact (quantum_digits _ (unpack_range a b c d e) 0 [] src).
Qed.

(** A last group of [k] digits, and the padding after it. *)
Lemma quantum_padded (a b c d e : byte) k pad :
  (k, pad) ∈ [(2, "======"); (4, "===="); (5, "==="); (7, "=")] ->
  exists src',
    base32.quantum 8 []
      (digits_string (take k (unpack (n8 a) (n8 b) (n8 c) (n8 d) (n8 e)))
       +:+ pad)
    = Some (take k (unpack (n8 a) (n8 b) (n8 c) (n8 d) (n8 e)), true, src').
Proof.
  intros Hk. pose proof (unpack_range a b c d e) as Hr.
  apply (Forall_take _ k) in Hr.
  apply list_elem_of_In in Hk. simpl in Hk.
  destruct Hk as [[= <- <-]|[[= <- <-]|[[= <- <-]|[[= <- <-]|[]]]]].
  - eexists. exact (quantum_digits _ Hr 6 [] "======").
  - eexists. exact (quantum_digits _ Hr 4 [] "====").
  - eexists. exact (quantum_digits _ Hr 3 [] "===").
  - eexists. exact (quantum_digits _ Hr 1 [] "=").
Qed.

(** A last group without its padding: the input ends inside the
    quantum. *)
Lemma quantum_short ds :
  Forall (fun d => (d < 32)%N) ds -> length ds < 8 ->
  base32.quantum 8 [] (digits_string ds) = None.
Proof.
  intros Hr Hl.
  replace 8 with (length ds + S (7 - length ds)) by lia.
  replace (digits_string ds) with (digits_string ds +:+ "").
  - by rewrite (quantum_digits _ Hr).
  - clear. induction ds as [|d ds IH]; simpl; [done | by rewrite IH].
Qed.

Lemma list_ind5 {A} (P : list A -> Prop) :
  P [] -> (forall a, P [a]) -> (forall a b, P [a; b]) ->
  (forall a b c, P [a; b; c]) -> (forall a b c d, P [a; b; c; d]) ->
  (forall a b c d e l, P l -> P (a :: b :: c :: d :: e :: l)) ->
  forall l, P l.
Proof.
  intros H0 H1 H2 H3 H4 H5 l.
  assert (forall n l, length l <= n -> P l) as H; [|by apply (H (length l))].
  clear l. induction n as [|n IH]; intros l Hl.
  - destruct l; [done | simpl in Hl; lia].
  - destruct l as [|a [|b [|c [|d [|e l]]]]]; try done.
    apply H5, IH. simpl in Hl. lia.
Qed.

Lemma mod5_step n : S (S (S (S (S n)))) mod 5 = n mod 5.
Proof.
  replace (S (S (S (S (S n))))) with (n + 1 * 5) by lia.
  apply Nat.Div0.mod_add.
Qed.

Lemma base32_padding_step (a b c d e : byte) l :
  base32_padding (a :: b :: c :: d :: e :: l) = base32_padding l.
Proof. unfold base32_padding. cbn [length]. by rewrite mod5_step. Qed.

Lemma base32_EncodeToString_step (a b c d e : byte) l :
  base32_EncodeToString (a :: b :: c :: d :: e :: l)
  = digits_string (unpack (n8 a) (n8 b) (n8 c) (n8 d) (n8 e))
    +:+ base32_EncodeToString l.
Proof.
  unfold base32_EncodeToString. rewrite base32_padding_step.
  cbn [base32_digits]. by rewrite str_app_assoc.
Qed.

Lemma decode_step f src :
  src <> "" ->
  base32.decode (S f) src
  = match base32.quantum 8 [] src with
    | None => None
    | Some (dbuf, false, src') =>
        (base32.pack dbuf ++.) <$> base32.decode f src'
    | Some (dbuf, true, _) => Some (base32.pack dbuf)
    end.
Proof. by destruct src. Qed.

Lemma decode_padded (a b c d e : byte) k pad f :
  (k, pad) ∈ [(2, "======"); (4, "===="); (5, "==="); (7, "=")] ->
  base32.decode (S f)
    (digits_string (take k (unpack (n8 a) (n8 b) (n8 c) (n8 d) (n8 e)))
     +:+ pad)
  = Some (base32.pack (take k (unpack (n8 a) (n8 b) (n8 c) (n8 d) (n8 e)))).
Proof.
  intros Hk. destruct (quantum_padded a b c d e k pad Hk) as [src' Hq].
  rewrite decode_step, Hq; [done |].
  apply list_elem_of_In in Hk. simpl in Hk.
  destruct Hk as [[= <- <-]|[[= <- <-]|[[= <- <-]|[[= <- <-]|[]]]]]; done.
Qed.

(** Decoding undoes encoding, with any fuel that covers the text. *)
Lemma decode_encode bs :
  forall f, len (base32_EncodeToString bs) <= f ->
    base32.decode f (base32_EncodeToString bs) = Some bs.
Proof.
  induction bs as [|a|a b|a b c|a b c d|a b c d e l IH] using list_ind5;
    intros f Hf.
  - by destruct f.
  - destruct f as [|f]; [simpl in Hf; lia |].
    pose proof (decode_padded a "000" "000" "000" "000" 2 "======" f
                  ltac:(set_solver)) as H.
    change (n8 "000"%byte) with 0%N in H. rewrite (pack_unpack_1 a) in H.
    exact H.
  - destruct f as [|f]; [simpl in Hf; lia |].
    pose proof (decode_padded a b "000" "000" "000" 4 "====" f
                  ltac:(set_solver)) as H.
    change (n8 "000"%byte) with 0%N in H. rewrite (pack_unpack_2 a b) in H.
    exact H.
  - destruct f as [|f]; [simpl in Hf; lia |].
    pose proof (decode_padded a b c "000" "000" 5 "===" f
                  ltac:(set_solver)) as H.
    change (n8 "000"%byte) with 0%N in H. rewrite (pack_unpack_3 a b c) in H.
    exact H.
  - destruct f as [|f]; [simpl in Hf; lia |].
    pose proof (decode_padded a b c d "000" 7 "=" f
                  ltac:(set_solver)) as H.
    change (n8 "000"%byte) with 0%N in H. rewrite (pack_unpack_4 a b c d) in H.
    exact H.
  - rewrite base32_EncodeToString_step in Hf |- *.
    rewrite len_app in Hf. simpl in Hf.
    destruct f as [|f]; [lia |].
    rewrite decode_step, quantum_unpack; [| done].
    rewrite IH by lia. rewrite pack_unpack. done.
Qed.

Lemma stripNewlines_clean s :
  char_in "013" s = false -> char_in "010" s = false ->
  base32.stripNewlines s = s.
Proof.
  induction s as [|c s IH]; [done |].
  cbn [char_in base32.stripNewlines].
  intros [Hc Hs]%orb_false_elim [Hc' Hs']%orb_false_elim.
  rewrite (Ascii.eqb_sym c "013"), Hc, (Ascii.eqb_sym c "010"), Hc'.
  cbn [orb]. by rewrite IH.
Qed.

(** The characters of an encoded text: digits of the alphabet, and the
    padding. *)
Lemma char_in_base32_digits c bs :
  char_in c (String "013" (String "010" "=u.:?&")) = true ->
  char_in c (base32_digits bs) = false.
Proof.
  intros Hc.
  induction bs as [|a|a b|a b c'|a b c' d|a b c' d e l IH] using list_ind5;
    cbn [base32_digits]; rewrite ?char_in_app, ?IH, ?orb_false_r;
    try done; apply (char_in_digits c _ Hc);
    first [ apply (unpack_range a "000" "000" "000" "000")
          | apply (Forall_take _ 2 _ (unpack_range a "000" "000" "000" "000"))
          | apply (Forall_take _ 4 _ (unpack_range a b "000" "000" "000"))
          | apply (Forall_take _ 5 _ (unpack_range a b c' "000" "000"))
          | apply (Forall_take _ 7 _ (unpack_range a b c' d "000"))
          | apply (unpack_range a b c' d e) ].
Qed.

Lemma char_in_base32 c bs :
  char_in c (String "013" (String "010" "u.:?&")) = true ->
  char_in c (base32_EncodeToString bs) = false.
Proof.
  intros Hc. unfold base32_EncodeToString.
  rewrite char_in_app, char_in_base32_digits.
  - unfold base32_padding.
    simpl in Hc.
    repeat (apply orb_prop in Hc as [Hc|Hc];
            [apply Ascii.eqb_eq in Hc as ->;
             by destruct (length bs mod 5) as [|[|[|[|[|?]]]]] |]).
    done.
  - simpl in Hc |- *.
    repeat (apply orb_prop in Hc as [Hc|Hc];
            [apply Ascii.eqb_eq in Hc as ->; done |]).
    done.
Qed.

Lemma base32_round_trip bs :
  base32.DecodeString (base32_EncodeToString bs) = Ok bs.
Proof.
  unfold base32.DecodeString.
  rewrite stripNewlines_clean by by apply char_in_base32.
  by rewrite decode_encode.
Qed.

Lemma str_app_nil_r s : s +:+ "" = s.
Proof. induction s as [|c s IH]; simpl; [done | by rewrite IH]. Qed.

(** Without its padding a text of whole quanta decodes, and no other
    one. *)
Lemma decode_digits bs :
  forall f, len (base32_digits bs) <= f ->
    base32.decode f (base32_digits bs)
    = if (length bs mod 5 =? 0)%nat then Some bs else None.
Proof.
  induction bs as [|a|a b|a b c|a b c d|a b c d e l IH] using list_ind5;
    intros f Hf.
  - by destruct f.
  - destruct f as [|f]; [simpl in Hf; lia |].
    rewrite decode_step by done. cbn [base32_digits].
    rewrite quantum_short; [done | | simpl; lia].
    apply (Forall_take _ 2 _ (unpack_range a "000" "000" "000" "000")).
  - destruct f as [|f]; [simpl in Hf; lia |].
    rewrite decode_step by done. cbn [base32_digits].
    rewrite quantum_short; [done | | simpl; lia].
    apply (Forall_take _ 4 _ (unpack_range a b "000" "000" "000")).
  - destruct f as [|f]; [simpl in Hf; lia |].
    rewrite decode_step by done. cbn [base32_digits].
    rewrite quantum_short; [done | | simpl; lia].
    apply (Forall_take _ 5 _ (unpack_range a b c "000" "000")).
  - destruct f as [|f]; [simpl in Hf; lia |].
    rewrite decode_step by done. cbn [base32_digits].
    rewrite quantum_short; [done | | simpl; lia].
    apply (Forall_take _ 7 _ (unpack_range a b c d "000")).
  - cbn [base32_digits length] in Hf |- *. rewrite mod5_step.
    rewrite len_app in Hf. simpl in Hf.
    destruct f as [|f]; [lia |].
    rewrite decode_step, quantum_unpack; [| done].
    rewrite IH by lia. rewrite pack_unpack.
    by destruct (_ =? 0)%nat.
Qed.

Lemma base32_digits_decode bs :
  base32.DecodeString (base32_digits bs)
  = if (length bs mod 5 =? 0)%nat then Ok bs
    else Err base32_CorruptInputError.
Proof.
  unfold base32.DecodeString.
  rewrite stripNewlines_clean by by apply char_in_base32_digits.
  rewrite decode_digits by done. by destruct (_ =? 0)%nat.
Qed.

Lemma base32_tag_in_keys d :
  d ∈ ["tree:tiger"; "sha1"; "aich"] -> d ∈ source_keys.
Proof.
  intros Hd. apply list_elem_of_In in Hd. simpl in Hd.
  destruct Hd as [<-|[<-|[<-|[]]]]; apply (bool_decide_unpack _); by vm_compute.
Qed.

Lemma base32_tag_switch d hd :
  d ∈ ["tree:tiger"; "sha1"; "aich"] ->
  switch_ht {| Hashes := [] |} (Some (HashTypeMap !!! d)) hd
  = (data ← base32.DecodeString hd;
     Ok {| Hashes := [{| HType := HashTypeMap !!! d; Data := data |}] |}).
Proof.
  intros Hd.
  destruct HashTypeMap_values as (Ht & Hs & _ & _ & Ha & _).
  apply list_elem_of_In in Hd. simpl in Hd.
  destruct Hd as [<-|[<-|[<-|[]]]]; by rewrite ?Ht, ?Hs, ?Ha.
Qed.

Section Base32URN.

Context `{!strings.Unicode} `{!url.Parser}.

(** X23. For the three schemes decoded as base 32, [newURN] undoes
    [base32.StdEncoding.EncodeToString]: the URN of the encoded bytes, of
    any length and with its padding, holds one hash of the type of the
    tag with those bytes, in every order of the [range] loop. *)
Theorem base32_urn_round_trip o d bs :
  d ∈ ["tree:tiger"; "sha1"; "aich"] ->
  newURN o ("urn:" +:+ d +:+ ":" +:+ base32_EncodeToString bs)
  = Ok {| Hashes := [{| HType := HashTypeMap !!! d; Data := bs |}] |}.
Proof.
  intros Hd.
  rewrite newURN_scheme;
    [| by apply base32_tag_in_keys
     | by apply (Index_absent "u" "rn:"), char_in_base32].
  by rewrite (base32_tag_switch d _ Hd), base32_round_trip.
Qed.

(** X24. A BitPrint URN made of the encodings of two byte strings, of any
    lengths, joined by [.] yields the first as the SHA1 hash and the
    second as the TigerTree hash. *)
Theorem bitprint_urn_round_trip o s t :
  newURN o ("urn:bitprint:" +:+ base32_EncodeToString s +:+ "."
            +:+ base32_EncodeToString t)
  = Ok {| Hashes := [{| HType := HashSHA1; Data := s |};
                     {| HType := HashTTH; Data := t |}] |}.
Proof.
  change ("urn:bitprint:" +:+ ?p) with ("urn:" +:+ "bitprint" +:+ ":" +:+ p).
  rewrite newURN_scheme.
  - rewrite (proj1 (proj2 (proj2 HashTypeMap_values))). unfold switch_ht.
    rewrite (Split_app_sep "." "" (base32_EncodeToString s))
      by by apply char_in_base32.
    rewrite (Split_absent "." "") by by apply char_in_base32.
    simpl. rewrite !base32_round_trip. done.
  - apply (bool_decide_unpack _). by vm_compute.
  - apply (Index_absent "u" "rn:").
    by rewrite !char_in_app, !char_in_base32.
Qed.

(** X25. In a magnet string the padding of a base-32 payload is lost,
    since the token is cut at its second [=]: an [xt] URN of a base-32
    scheme with the standard encoding of [bs] parses to that hash when
    the length of [bs] is a multiple of five, and fails with
    [CorruptInputError] for every other length. *)
Theorem base32_topic_in_magnet os d bs :
  d ∈ ["tree:tiger"; "sha1"; "aich"] ->
  NewMagnet os ("magnet:?xt=urn:" +:+ d +:+ ":" +:+ base32_EncodeToString bs)
  = if (length bs mod 5 =? 0)%nat
    then Ok (set_ManifestTopics Magnet_zero
               [TopicURN {| Hashes := [{| HType := HashTypeMap !!! d;
                                          Data := bs |}] |}])
    else Err base32_CorruptInputError.
Proof.
  intros Hd.
  assert (forall c, char_in c "=?&" = true ->
            char_in c ("urn:" +:+ d +:+ ":" +:+ base32_digits bs) = false)
    as Hv.
  { intros c Hc.
    assert (char_in c (base32_digits bs) = false) as Hb.
    { apply char_in_base32_digits. simpl in Hc |- *.
      repeat (apply orb_prop in Hc as [Hc|Hc];
              [apply Ascii.eqb_eq in Hc as ->; done |]).
      done. }
    simpl in Hc.
    apply list_elem_of_In in Hd. simpl in Hd.
    destruct Hd as [<-|[<-|[<-|[]]]];
      repeat (apply orb_prop in Hc as [Hc|Hc];
              [apply Ascii.eqb_eq in Hc as ->; simpl; by rewrite Hb |]);
      done. }
  assert (NewMagnet os ("magnet:?xt=urn:" +:+ d +:+ ":"
                        +:+ base32_EncodeToString bs)
          = parseKeyVal (os 0) Magnet_zero "xt"
              ("urn:" +:+ d +:+ ":" +:+ base32_digits bs))
    as ->.
  { unfold base32_EncodeToString, base32_padding.
    assert (forall a b c, "urn:" +:+ a +:+ ":" +:+ b +:+ c
                          = ("urn:" +:+ a +:+ ":" +:+ b) +:+ c) as Hassoc.
    { intros a b c. simpl. by rewrite !str_app_assoc. }
    change ("magnet:?xt=urn:" +:+ ?p)
      with ("magnet:?" +:+ "xt" +:+ "=" +:+ "urn:" +:+ p).
    destruct (length bs mod 5) as [|[|[|[|[|?]]]]];
      rewrite ?str_app_nil_r;
      try (apply NewMagnet_single;
           [ rewrite (char_in_app _ "xt"), (char_in_app _ "="),
               (Hv "?"%char) by done; done
           | rewrite (char_in_app _ "xt"), (char_in_app _ "="),
               (Hv "&"%char) by done; done
           | done | by apply Hv ]);
      rewrite Hassoc;
      match goal with
      | |- context [?v +:+ String "=" ?rest] =>
          change (v +:+ String "=" rest) with (v +:+ "=" +:+ rest)
      end;
      (apply NewMagnet_single_cut;
       [done | by apply Hv
       | rewrite (char_in_app _ "xt"), (char_in_app _ (_ +:+ _ +:+ _ +:+ _)),
           (Hv "&"%char) by done; done
       | rewrite (char_in_app _ "xt"), (char_in_app _ (_ +:+ _ +:+ _ +:+ _)),
           (Hv "?"%char) by done; done]). }
  rewrite (parseKeyVal_classified _ _ _ _ _ newMagnetKey_xt).
  simpl KType. cbv iota.
  rewrite newURN_scheme;
    [| by apply base32_tag_in_keys
     | by apply (Index_absent "u" "rn:"), char_in_base32_digits].
  rewrite (base32_tag_switch d _ Hd), base32_digits_decode.
  by destruct (_ =? 0)%nat.
Qed.

End Base32URN.

(** *** Texts over the alphabet alone *)

Lemma in_alphabet_drop k s :
  in_alphabet s = true -> in_alphabet (str_drop k s) = true.
Proof.
  revert s. induction k as [|k IH]; intros [|c s]; simpl; try done.
  intros [_ Hs]%andb_prop. by apply IH.
Qed.

(** The inner loop on digits alone: [k] of them are read, or the input
    ends first. *)
Lemma quantum_alphabet k :
  forall dbuf src, in_alphabet src = true ->
    (len src < k -> base32.quantum k dbuf src = None)
    /\ (k <= len src ->
        exists vals, length vals = k
          /\ base32.quantum k dbuf src
             = Some ((dbuf ++ vals)%list, false, str_drop k src)).
Proof.
  induction k as [|k IH]; intros dbuf src Ha.
  - split; [lia |]. intros _. exists []. by rewrite app_nil_r.
  - destruct src as [|c src]; [split; [done | simpl; lia] |].
    cbn [in_alphabet] in Ha. apply andb_prop in Ha as [Hc Ha].
    apply bool_decide_eq_true in Hc as [v Hv].
    assert (Ascii.eqb c "=" = false) as Hne.
    { destruct (Ascii.eqb_spec c "=") as [->|]; [by vm_compute in Hv | done]. }
    cbn [base32.quantum]. rewrite Hne, Hv. cbn [andb].
    destruct (IH (dbuf ++ [v])%list src Ha) as [Hshort Hlong].
    split; [intros Hl; apply Hshort; simpl in Hl; lia |].
    intros Hl. destruct Hlong as (vals & Hlen & Hq); [simpl in Hl; lia |].
    exists (v :: vals). split; [simpl; lia |].
    by rewrite Hq, <- app_assoc.
Qed.

Lemma pack_length dbuf : length dbuf = 8 -> length (base32.pack dbuf) = 5.
Proof. intros Hl. unfold base32.pack. by rewrite Hl. Qed.

Lemma decode_alphabet f :
  forall src data,
    len src <= f -> in_alphabet src = true ->
    base32.decode f src = Some data ->
    exists k, len src = 8 * k /\ length data = 5 * k.
Proof.
  induction f as [|f IH]; intros src data Hf Ha.
  - destruct src; [|simpl in Hf; lia]. intros [= <-]. by exists 0.
  - destruct src as [|c src]; [intros [= <-]; by exists 0 |].
    rewrite decode_step by done.
    destruct (quantum_alphabet 8 [] _ Ha) as [Hshort Hlong].
    destruct (Nat.lt_ge_cases (len (String c src)) 8) as [Hl|Hl].
    { by rewrite (Hshort Hl). }
    destruct (Hlong Hl) as (vals & Hlen & ->).
    destruct (base32.decode f _) as [data'|] eqn:Hd; [|done].
    intros [= <-].
    apply IH in Hd as (k & Hk & Hdk);
      [| rewrite len_drop; simpl in Hf |- *; lia | by apply in_alphabet_drop].
    exists (S k). rewrite len_drop in Hk.
    rewrite length_app, (pack_length _ Hlen). split; lia.
Qed.

Lemma base32_alphabet_length s data :
  in_alphabet s = true -> base32.DecodeString s = Ok data ->
  exists k, len s = 8 * k /\ length data = 5 * k.
Proof.
  intros Ha. unfold base32.DecodeString.
  rewrite stripNewlines_clean by by apply in_alphabet_char_in.
  destruct (base32.decode _ _) as [d|] eqn:Hd; [|done].
  intros [= <-]. by apply (decode_alphabet (len s)).
Qed.

Section Base32Length.

Context `{!strings.Unicode} `{!url.Parser}.

(** X26. When [newURN] accepts a URN of a base-32 scheme whose payload is
    made of digits of the alphabet alone, the payload is a whole number
    of 8-digit quanta and the data holds five bytes for each of them. *)
Theorem base32_urn_data_length o d payload u :
  d ∈ ["tree:tiger"; "sha1"; "aich"] -> in_alphabet payload = true ->
  newURN o ("urn:" +:+ d +:+ ":" +:+ payload) = Ok u ->
  exists data k,
    Hashes u = [{| HType := HashTypeMap !!! d; Data := data |}]
    /\ base32.DecodeString payload = Ok data
    /\ len payload = 8 * k /\ length data = 5 * k.
Proof.
  intros Hd Ha.
  rewrite newURN_scheme;
    [| by apply base32_tag_in_keys
     | by apply (Index_absent "u" "rn:"), in_alphabet_char_in].
  rewrite (base32_tag_switch d _ Hd).
  destruct (base32.DecodeString payload) as [data| |] eqn:Hx; simpl; [|done..].
  intros [= <-].
  destruct (base32_alphabet_length payload data Ha Hx) as (k & Hk & Hdk).
  by exists data, k.
Qed.

End Base32Length.

(** ** Closed instances of the further properties *)

Lemma sample_parse :
  NewMagnet (fun _ => source_order) sample_string = Ok sample_magnet.
Proof. vm_compute. reflexivity. Qed.

Lemma text_fields_in_token_order_witness :
  DisplayNames sample_magnet
  = of_tokens (text_value KeyDisplayName) (query_tokens sample_string)
  /\ KeywordTopics sample_magnet
     = of_tokens (text_value KeyKeywordTopic) (query_tokens sample_string)
  /\ TrackerAddresses sample_magnet
     = of_tokens (text_value KeyTrackerAddress) (query_tokens sample_string).
Proof.
  apply (text_fields_in_token_order (fun _ => source_order)).
  vm_compute. reflexivity.
Defined.

Lemma exact_sources_are_raw_witness :
  ExactSources sample_magnet
  = of_tokens (raw_value KeyExactSource) (query_tokens sample_string).
Proof.
  apply (exact_sources_are_raw (fun _ => source_order)).
  vm_compute. reflexivity.
Defined.

Lemma manifest_topics_in_token_order_witness :
  ManifestTopics sample_magnet
  = of_tokens topic_value (query_tokens sample_string).
Proof.
  apply (manifest_topics_in_token_order (fun _ => reverse_order)).
  vm_compute. reflexivity.
Defined.

Lemma acceptable_sources_in_token_order_witness :
  @AcceptableSources any_url
    (@set_AcceptableSources any_url
       (@set_DisplayNames any_url (@Magnet_zero any_url) ["b"])
       ["http://a"; "c"])
  = of_tokens (@source_value any_url)
      (query_tokens "magnet:?as=http://a&dn=b&as=c").
Proof.
  apply (@acceptable_sources_in_token_order ASCII any_url
           (fun _ => source_order)).
  vm_compute. reflexivity.
Defined.

Lemma exact_topics_and_supplements_stay_empty_witness :
  ExactTopics sample_magnet = [] /\ Suplements sample_magnet = None.
Proof.
  apply (exact_topics_and_supplements_stay_empty (fun _ => source_order)
           sample_string).
  vm_compute. reflexivity.
Defined.

Lemma NewMagnet_of_pairs_witness :
  NewMagnet (fun _ => source_order)
    ("magnet:?" +:+ Join (token <$> [("dn", "a+b"); ("xl", "7")]) "&")
  = parse_pairs (fun _ => source_order) 0 Magnet_zero
      [("dn", "a+b"); ("xl", "7")].
Proof.
  apply NewMagnet_of_pairs.
  - discriminate.
  - repeat constructor.
  - repeat constructor.
  - vm_compute. reflexivity.
Defined.

Lemma value_cut_at_second_separator_witness :
  NewMagnet (fun _ => source_order) "magnet:?dn=a=b"
  = NewMagnet (fun _ => source_order) "magnet:?dn=a".
Proof.
  apply (value_cut_at_second_separator (fun _ => source_order) "dn" "a" "b");
    reflexivity.
Defined.

Lemma failure_is_final_witness :
  NewMagnet (fun _ => source_order)
    ("magnet:?" +:+ Join (["dn=a"; "xl=x"] ++ ["dn=b"])%list "&")
  = Err (strconv_NumError "ParseInt" "x" ErrSyntax).
Proof.
  apply (failure_is_final (fun _ => source_order) ["dn=a"; "xl=x"] ["dn=b"]).
  - discriminate.
  - repeat constructor.
  - vm_compute. reflexivity.
  - reflexivity.
Defined.

Lemma scheme_is_checked_witness :
  NewMagnet (fun _ => source_order) "magnet:dn=a" = Err ErrInvalidMagnet
  /\ NewMagnet (fun _ => source_order) "magnet:?dn=a:?dn=b"
     = Err ErrInvalidMagnet
  /\ NewMagnet (fun _ => source_order) ("magnet2" +:+ ":?" +:+ "dn=a")
     = Err ErrInvalidMagnet.
Proof.
  destruct (scheme_is_checked (fun _ => source_order)) as [Hc Hs].
  split; [| split].
  - apply Hc. vm_compute. lia.
  - apply Hc. vm_compute. lia.
  - apply Hs; [reflexivity | reflexivity | discriminate].
Defined.

Lemma scheme_is_case_insensitive_witness :
  NewMagnet (fun _ => source_order) ("MaGnEt" +:+ ":?" +:+ "dn=a")
  = NewMagnet (fun _ => source_order) ("magnet:?" +:+ "dn=a").
Proof.
  apply (scheme_is_case_insensitive (fun _ => source_order) "MaGnEt" "dn=a");
    reflexivity.
Defined.

Lemma newURN_panics_iff_witness :
  newURN source_order "urn:btih"
  = Panic (slice_bounds_out_of_range 5 4).
Proof.
  apply (newURN_panics_iff source_order "urn:btih").
  exists "", "btih", "btih". repeat split.
  - apply (bool_decide_unpack _). vm_compute. exact I.
  - simpl. lia.
Defined.

Lemma newURN_hashes_shape_witness :
  Hashes {| Hashes := [{| HType := HashBTIH; Data := ["000"; "255"]%byte |}] |}
  = []
  \/ (exists t d,
        Hashes {| Hashes := [{| HType := HashBTIH;
                                Data := ["000"; "255"]%byte |}] |}
        = [{| HType := t; Data := d |}]
        /\ t ∈ [HashTTH; HashSHA1; HashAICH; HashED2K; HashKazaa; HashBTIH])
  \/ (exists d1 d2,
        Hashes {| Hashes := [{| HType := HashBTIH;
                                Data := ["000"; "255"]%byte |}] |}
        = [{| HType := HashSHA1; Data := d1 |};
           {| HType := HashTTH; Data := d2 |}]).
Proof.
  apply (newURN_hashes_shape source_order "urn:btih:00ff").
  vm_compute. reflexivity.
Defined.

Lemma empty_urn_iff_witness :
  newURN source_order "urn:md5:0" = Ok {| Hashes := [] |}
  /\ newURN source_order "urn:crc32:0" = Ok {| Hashes := [] |}.
Proof.
  split.
  - apply (empty_urn_iff source_order "urn:md5:0").
    exists "", "md5:0". split; [reflexivity |]. right.
    split; [reflexivity | simpl; lia].
  - apply (empty_urn_iff source_order "urn:crc32:0").
    exists "", "crc32:0". split; [reflexivity |]. left.
    intros d Hd. apply list_elem_of_In in Hd. simpl in Hd.
    destruct Hd as [<-|[<-|[<-|[<-|[<-|[<-|[<-|[<-|[]]]]]]]]]; reflexivity.
Defined.

Lemma tag_case_and_separator_byte_witness :
  newURN source_order ("urn:" +:+ "BtIh" +:+ String "/" "00ff")
  = newURN source_order ("urn:" +:+ "btih" +:+ ":" +:+ "00ff").
Proof.
  apply (tag_case_and_separator_byte source_order "BtIh" "/" "00ff" "btih");
    try reflexivity.
  apply (bool_decide_unpack _). vm_compute. exact I.
Defined.

Lemma hex_urn_round_trip_witness :
  newURN reverse_order
    ("urn:" +:+ "ed2k" +:+ ":" +:+ hex_EncodeToString ["000"; "171"; "255"]%byte)
  = Ok {| Hashes := [{| HType := HashTypeMap !!! "ed2k";
                        Data := ["000"; "171"; "255"]%byte |}] |}.
Proof.
  apply (hex_urn_round_trip reverse_order "ed2k").
  apply (bool_decide_unpack _). vm_compute. exact I.
Defined.

Lemma hex_urn_data_length_witness :
  exists data,
    Hashes {| Hashes := [{| HType := HashBTIH;
                            Data := ["000"; "255"]%byte |}] |}
    = [{| HType := HashTypeMap !!! "btih"; Data := data |}]
    /\ hex.DecodeString "00ff" = Ok data /\ len "00ff" = 2 * length data.
Proof.
  apply (hex_urn_data_length source_order "btih" "00ff").
  - apply (bool_decide_unpack _). vm_compute. exact I.
  - vm_compute. reflexivity.
Defined.

Lemma NewMagnet_panics_only_witness :
  (index_out_of_range 1 1 = index_out_of_range 1 1
   \/ exists d n, d ∈ source_keys /\ n <= len d
        /\ index_out_of_range 1 1 = slice_bounds_out_of_range (len d + 1) n)
  /\ (slice_bounds_out_of_range 5 4 = index_out_of_range 1 1
      \/ exists d n, d ∈ source_keys /\ n <= len d
           /\ slice_bounds_out_of_range 5 4
              = slice_bounds_out_of_range (len d + 1) n).
Proof.
  split.
  - apply (NewMagnet_panics_only (fun _ => source_order) "magnet:?dn").
    vm_compute. reflexivity.
  - apply (NewMagnet_panics_only (fun _ => source_order)
             "magnet:?xt=urn:btih").
    vm_compute. reflexivity.
Defined.

Lemma manifest_topic_with_urn_prefix_witness :
  (forall o m, parseKeyVal o m "mt" "URNs.example/list" = Err ErrInvalidMagnet)
  /\ (forall os,
        char_in "?" "URNs.example/list" = false ->
        char_in "&" "URNs.example/list" = false ->
        char_in "=" "URNs.example/list" = false ->
        NewMagnet os ("magnet:?mt=" +:+ "URNs.example/list")
        = Err ErrInvalidMagnet).
Proof.
  apply (manifest_topic_with_urn_prefix "URNs.example/list"); reflexivity.
Defined.

Lemma numbers_in_range_witness :
  (- 2 ^ 63 <= ExactLength sample_magnet < 2 ^ 63)%Z
  /\ (- 2 ^ 63 <= Indx {| KType := KeyExactTopic; Indx := 12; Supl := "" |}
      < 2 ^ 63)%Z.
Proof.
  destruct (@numbers_in_range ASCII no_url) as [Hm Hk]. split.
  - apply (Hm (fun _ => source_order) sample_string). vm_compute. reflexivity.
  - apply (Hk "xt.12"). vm_compute. reflexivity.
Defined.

Lemma key_type_from_first_two_bytes_witness :
  newMagnetKey "x" = Err ErrInvalidMagnet
  /\ newMagnetKey "zz" = Err ErrInvalidMagnet
  /\ newMagnetKey ("dn" +:+ "foo")
     = Ok {| KType := KeyDisplayName; Indx := 0; Supl := "" |}.
Proof.
  destruct key_type_from_first_two_bytes as (Hs & Hn & Hp).
  split; [| split].
  - apply Hs. simpl. lia.
  - apply Hn. reflexivity.
  - apply Hp; [reflexivity | reflexivity | discriminate | reflexivity].
Defined.

Lemma success_needs_every_token_witness :
  query_tokens sample_string <> []
  /\ Forall (fun tok => exists k v rest ty,
               Split tok "=" = k :: v :: rest
               /\ key_type k = Some ty /\ ty <> KeySuplement)
       (query_tokens sample_string).
Proof.
  apply (success_needs_every_token (fun _ => source_order) sample_string
           sample_magnet).
  vm_compute. reflexivity.
Defined.

Lemma base32_urn_round_trip_witness :
  newURN reverse_order
    ("urn:" +:+ "tree:tiger" +:+ ":"
     +:+ base32_EncodeToString ["a"; "b"; "c"; "d"; "e"; "f"]%byte)
  = Ok {| Hashes := [{| HType := HashTypeMap !!! "tree:tiger";
                        Data := ["a"; "b"; "c"; "d"; "e"; "f"]%byte |}] |}.
Proof.
  apply (base32_urn_round_trip reverse_order "tree:tiger").
  apply (bool_decide_unpack _). vm_compute. exact I.
Defined.

Lemma base32_topic_in_magnet_witness :
  NewMagnet (fun _ => source_order)
    ("magnet:?xt=urn:" +:+ "sha1" +:+ ":"
     +:+ base32_EncodeToString ["a"; "b"; "c"; "d"; "e"]%byte)
  = Ok (set_ManifestTopics Magnet_zero
          [TopicURN {| Hashes := [{| HType := HashTypeMap !!! "sha1";
                                     Data := ["a"; "b"; "c"; "d"; "e"]%byte |}] |}])
  /\ NewMagnet (fun _ => source_order)
       ("magnet:?xt=urn:" +:+ "sha1" +:+ ":"
        +:+ base32_EncodeToString ["a"; "b"; "c"; "d"; "e"; "f"]%byte)
     = Err base32_CorruptInputError.
Proof.
  split.
  - apply (base32_topic_in_magnet (fun _ => source_order) "sha1"
             ["a"; "b"; "c"; "d"; "e"]%byte).
    apply (bool_decide_unpack _). vm_compute. exact I.
  - apply (base32_topic_in_magnet (fun _ => source_order) "sha1"
             ["a"; "b"; "c"; "d"; "e"; "f"]%byte).
    apply (bool_decide_unpack _). vm_compute. exact I.
Defined.

Lemma base32_urn_data_length_witness :
  exists data k,
    Hashes {| Hashes := [{| HType := HashSHA1;
                            Data := ["a"; "b"; "c"; "d"; "e"]%byte |}] |}
    = [{| HType := HashTypeMap !!! "sha1"; Data := data |}]
    /\ base32.DecodeString "MFRGGZDF" = Ok data
    /\ len "MFRGGZDF" = 8 * k /\ length data = 5 * k.
Proof.
  apply (base32_urn_data_length source_order "sha1" "MFRGGZDF").
  - apply (bool_decide_unpack _). vm_compute. exact I.
  - reflexivity.
  - vm_compute. reflexivity.
Defined.
